(** * C–H contact intervals and ionization time: a verified model of
      [analyzing/CH_formation.py]

    The Python script reads a multi-frame XYZ trajectory and an optional
    [monitor.out] log, computes for every carbon/hydrogen pair the maximal
    frame ranges over which their distance stays at or below a cutoff, and
    looks up the first logged electron count below a threshold.

    The embedding is shallow: every Python function becomes a Rocq function
    of the same name, and the body of a loop becomes a function folded over
    the list the loop runs through.

    - A Python [float] is a binary64 float of the kernel, with its
      rounding, its infinities and its NaN; an [int] is a [Z].
    - A [str] is the [string] of the bytes of its UTF-8 encoding.  The
      tests [needle in s] and [s.upper() == 'C'] are decided on the bytes.
      What [split], [strip], [isdigit], [int], [float] and [**] return
      depends on the Unicode tables, on the settings and on the C library
      of the interpreter that runs the script: they are the interface
      [Runtime], over which the model and its properties are stated.  The
      instance [ascii_runtime] gives them on ASCII text and is used in the
      examples.
    - An exception is the [Raise] branch of [result]; statements are
      sequenced in the order in which Python evaluates them, so the
      exception of a run is the first one raised.
    - The file system read by [open] and [Path.is_file] is a [gmap] from
      paths to nodes; a file is the list of its lines, or the lines that
      can be read from it and the exception that ends the reading.
    - The [dict] of the report is a [gmap] from index pairs to lists.
    - The generator [frames_from_xyz] is modelled through the list that
      [list(...)] collects from it, which is its only use. *)

From Stdlib Require Import ZArith List String Ascii Bool Floats Lia.
From stdpp Require Import base option list gmap strings.

Set Warnings "-inexact-float".

Local Open Scope Z_scope.

(* ================================================================== *)
(** * Exceptions *)

Inductive exn : Set :=
| FileNotFoundError
| IsADirectoryError
| PermissionError
| UnicodeDecodeError
| ValueError
| IndexError
| OverflowError.

Inductive result (A : Type) : Type :=
| Ok (a : A)
| Raise (e : exn).
Arguments Ok {A} a.
Arguments Raise {A} e.

Definition rbind {A B} (c : result A) (k : A -> result B) : result B :=
  match c with
  | Ok a => k a
  | Raise e => Raise e
  end.

Notation "'do' x <- c ; k" := (rbind c (fun x => k))
  (at level 10, x pattern, c at level 100, k at level 200).

(** [[f(x) for x in l]] where [f] may raise: the first exception wins. *)
Fixpoint traverse {A B} (f : A -> result B) (l : list A) : result (list B) :=
  match l with
  | [] => Ok []
  | x :: l' => do y <- f x; do ys <- traverse f l'; Ok (y :: ys)
  end.

(** A loop [for x in l: acc = body(acc, x)] whose body may raise. *)
Fixpoint for_each {A S} (body : S -> A -> result S) (l : list A) (acc : S)
  : result S :=
  match l with
  | [] => Ok acc
  | x :: l' => do acc' <- body acc x; for_each body l' acc'
  end.

(* ================================================================== *)
(** * Python built-ins used by the script *)

Module Py.

Definition len {A} (l : list A) : Z := Z.of_nat (length l).

(** [l[i]]: negative indices count from the end, anything out of range
    raises [IndexError]. *)
Definition getitem {A} (l : list A) (i : Z) : result A :=
  let j := if i <? 0 then len l + i else i in
  if j <? 0 then Raise IndexError
  else match l !! Z.to_nat j with
       | Some x => Ok x
       | None => Raise IndexError
       end.

(** [not l] for a list. *)
Definition not_ {A} (l : list A) : bool :=
  match l with
  | [] => true
  | _ => false
  end.

(** [l[start:stop]]: negative bounds count from the end, bounds outside
    the list are clipped. *)
Definition clip {A} (l : list A) (i : Z) : Z :=
  if i <? 0 then Z.max 0 (len l + i) else Z.min (len l) i.
Definition slice {A} (l : list A) (start stop : Z) : list A :=
  take (Z.to_nat (clip l stop - clip l start)) (drop (Z.to_nat (clip l start)) l).

(** [enumerate(l)], counting from [i]. *)
Fixpoint enumerate_from {A} (i : Z) (l : list A) : list (Z * A) :=
  match l with
  | [] => []
  | x :: l' => (i, x) :: enumerate_from (i + 1) l'
  end.
Definition enumerate {A} (l : list A) : list (Z * A) := enumerate_from 0 l.

(** [range(n)]. *)
Definition range (n : Z) : list Z := seqZ 0 n.

(** ** Characters *)

Definition code (c : ascii) : N := N_of_ascii c.

(** The blank characters of ASCII: TAB, LF, VT, FF, CR, FS, GS, RS, US
    and the space. *)
Definition isspace (c : ascii) : bool :=
  let n := code c in
  ((9 <=? n) && (n <=? 13) || (28 <=? n) && (n <=? 32))%N.

Definition is_digit (c : ascii) : bool :=
  let n := code c in ((48 <=? n) && (n <=? 57))%N.

Definition digit_val (c : ascii) : option Z :=
  if is_digit c then Some (Z.of_N (code c) - 48) else None.

Definition upper_char (c : ascii) : ascii :=
  let n := code c in
  if ((97 <=? n) && (n <=? 122))%N then ascii_of_N (n - 32) else c.

Definition lower_char (c : ascii) : ascii :=
  let n := code c in
  if ((65 <=? n) && (n <=? 90))%N then ascii_of_N (n + 32) else c.

(** ** Strings *)

Definition chars (s : string) : list ascii := list_ascii_of_string s.
Definition str (l : list ascii) : string := string_of_list_ascii l.

(** [s.upper()] on the letters [a] to [z]; the other bytes are kept. *)
Definition upper (s : string) : string := str (map upper_char (chars s)).

Fixpoint lstrip_chars (l : list ascii) : list ascii :=
  match l with
  | c :: l' => if isspace c then lstrip_chars l' else l
  | [] => []
  end.

(** [s.strip()] on ASCII text. *)
Definition strip_chars (l : list ascii) : list ascii :=
  rev (lstrip_chars (rev (lstrip_chars l))).
Definition strip (s : string) : string := str (strip_chars (chars s)).

(** [s.split()] on ASCII text: maximal runs of non-blank characters, in
    order.  [cur] is the run being read, most recent character first. *)
Fixpoint split_chars (cur : list ascii) (l : list ascii) : list string :=
  match l with
  | [] => match cur with [] => [] | _ => [str (rev cur)] end
  | c :: l' =>
      if isspace c then
        match cur with
        | [] => split_chars [] l'
        | _ => str (rev cur) :: split_chars [] l'
        end
      else split_chars (c :: cur) l'
  end.
Definition split (s : string) : list string := split_chars [] (chars s).

(** [s.isdigit()] on ASCII text: at least one character, all of them
    digits. *)
Definition isdigit (s : string) : bool :=
  match chars s with
  | [] => false
  | l => forallb is_digit l
  end.

(** The number written by a string of ASCII digits. *)
Definition int_of_digits (s : string) : Z :=
  fold_left (fun acc c => 10 * acc + (Z.of_N (code c) - 48)) (chars s) 0.

(** [needle in s] *)
Fixpoint contains (needle s : string) : bool :=
  String.prefix needle s ||
  match s with
  | EmptyString => false
  | String _ s' => contains needle s'
  end.

(** ** Floats *)

(** [math.sqrt(x)]: [ValueError] below zero. *)
Definition sqrt (x : float) : result float :=
  if (x <? 0)%float then Raise ValueError else Ok (PrimFloat.sqrt x).

(** The binary64 number nearest to [(-1)^neg * p / q], ties to even, for
    [0 <= p] and [0 < q].  The quotient is taken with at least 55
    significant bits and one more bit records a non-zero remainder, so
    that the final rounding to 53 bits sees on which side of a tie the
    exact value lies. *)
Definition float_of_ratio (neg : bool) (p q : Z) : float :=
  let e := Z.log2 p - Z.log2 q - 56 in
  let num := if e <? 0 then p * 2 ^ (- e) else p in
  let den := if e <? 0 then q else q * 2 ^ e in
  let '(qt, r) := Z.div_eucl num den in
  let m := 2 * qt + (if r =? 0 then 0 else 1) in
  SF2Prim (binary_normalize prec emax (if neg then - m else m) (e - 1) neg).

(** The conversion of an [int] to a [float] in [i * x]: the nearest
    double.  (Python raises [OverflowError] from [2^1024] on; the only
    integers converted below are frame indices, and no list is that
    long.) *)
Definition float_of_int (i : Z) : float :=
  SF2Prim (binary_normalize prec emax i 0 false).

(** A run of digits in which single underscores may separate digits:
    the value accumulated on [acc], the number of digits read added to
    [n], and what is left. *)
Fixpoint digitpart (l : list ascii) (acc n : Z) : Z * Z * list ascii :=
  match l with
  | [] => (acc, n, [])
  | c :: l' =>
      match digit_val c with
      | Some d => digitpart l' (10 * acc + d) (n + 1)
      | None =>
          if Ascii.eqb c "_" then
            match n, l' with
            | 0, _ => (acc, n, l)
            | _, c2 :: l'' =>
                match digit_val c2 with
                | Some d => digitpart l'' (10 * acc + d) (n + 1)
                | None => (acc, n, l)
                end
            | _, [] => (acc, n, l)
            end
          else (acc, n, l)
      end
  end.

Definition sign_of (l : list ascii) : bool * list ascii :=
  match l with
  | "-"%char :: l' => (true, l')
  | "+"%char :: l' => (false, l')
  | _ => (false, l)
  end.

(** The exponent part [e[+-]digits]; no exponent at all is [0]. *)
Definition exponent (l : list ascii) : option Z :=
  match l with
  | [] => Some 0
  | "e"%char :: l' =>
      let '(neg, l1) := sign_of l' in
      match digitpart l1 0 0 with
      | (_, 0, _) => None
      | (v, _, []) => Some (if neg then - v else v)
      | _ => None
      end
  | _ => None
  end.

(** [float(s)] on ASCII text, as [None] where Python raises [ValueError]:
    blanks around the number are dropped, letters are case-insensitive;
    accepted are a signed [inf], [infinity] or [nan], and a signed decimal
    number with an optional fraction and exponent, correctly rounded. *)
Definition float_of_chars (l : list ascii) : option float :=
  let '(neg, l1) := sign_of (map lower_char (strip_chars l)) in
  let s := str l1 in
  if (String.eqb s "inf" || String.eqb s "infinity")%string then
    Some (if neg then neg_infinity else infinity)
  else if String.eqb s "nan" then Some nan
  else
    let '(ip, ni, l2) := digitpart l1 0 0 in
    let '(m, nf, l3) :=
      match l2 with
      | "."%char :: l2' => digitpart l2' ip 0
      | _ => (ip, 0, l2)
      end in
    if ni + nf =? 0 then None
    else
      match exponent l3 with
      | None => None
      | Some ex =>
          let k := ex - nf in
          Some (if k <? 0 then float_of_ratio neg m (10 ^ (- k))
                else float_of_ratio neg (m * 10 ^ k) 1)
      end.

Definition float (s : string) : option float := float_of_chars (chars s).

End Py.

(* ================================================================== *)
(** * The interpreter *)

(** The errors that a function of the C library leaves in [errno]: a
    range error or a domain error. *)
Inductive errno : Set :=
| ERANGE
| EDOM.

(** The operations of the script whose result is not fixed by the script
    and its input alone.

    - [str_strip], [str_isdigit] and [str_split] are [s.strip()],
      [s.isdigit()] and [s.split()]: which characters are blank and which
      are digits is read from the Unicode tables of the interpreter.
    - [int_of_str] is [int(s)] and [float_of_str] is [float(s)], with
      [None] where they raise [ValueError]; [int] accepts the decimal
      digits of every script, refuses other digits such as superscripts,
      and from Python 3.11 on refuses a string of more digits than the
      limit that is set (4300 unless changed).
    - [libm_pow2 x] is the call [pow(x, 2.0)] of the C library, to which
      [x ** 2] comes down for a positive finite [x] other than one: the
      value returned and the error that the call leaves in [errno], if
      any. *)
Class Runtime : Type := {
  str_strip : string -> string;
  str_isdigit : string -> bool;
  str_split : string -> list string;
  int_of_str : string -> option Z;
  float_of_str : string -> option float;
  libm_pow2 : float -> float * option errno
}.

(** The interpreter on ASCII text, without a limit on the digits of an
    integer, with a C library whose [pow(x, 2.0)] is the rounded product
    and leaves [errno] alone. *)
#[global] Instance ascii_runtime : Runtime := {|
  str_strip := Py.strip;
  str_isdigit := Py.isdigit;
  str_split := Py.split;
  int_of_str := fun s => if Py.isdigit s then Some (Py.int_of_digits s) else None;
  float_of_str := Py.float;
  libm_pow2 := fun x => ((x * x)%float, None)
|}.

(** The check of [errno] after a call of the C library that returned
    [ix]: an infinite result counts as a range error also where the
    library reports none, a range error with the result zero is an
    underflow and is dropped; what is left of a range error is an
    [OverflowError], any other error a [ValueError]. *)
Definition check_errno (ix : float) (err : option errno) : result float :=
  match err with
  | None => if is_infinity ix then Raise OverflowError else Ok ix
  | Some ERANGE => if (ix =? 0)%float then Ok ix else Raise OverflowError
  | Some EDOM => Raise ValueError
  end.

(** [x ** 2] for a float [x].  The interpreter settles the special cases
    itself: a NaN is returned as it is, an infinity gives the positive
    infinity, a zero the positive zero, and one and minus one give one.
    Otherwise the C library computes [pow(abs(x), 2.0)]. *)
Definition float_pow2 `{Runtime} (x : float) : result float :=
  if is_nan x then Ok x
  else if is_infinity x then Ok infinity
  else if (x =? 0)%float then Ok 0%float
  else
    let iv := abs x in
    if (iv =? 1)%float then Ok 1%float
    else
      let '(ix, err) := libm_pow2 iv in
      check_errno ix err.

(* ================================================================== *)
(** * Tunable parameters *)

Definition R_CUTOFF : float := 2.0.
Definition MIN_LEN_FRAMES : Z := 1.
Definition NE_THRESHOLD : float := 9.5.
Definition TRAJ_DT_FS : float := 0.5.

(* ================================================================== *)
(** * Files *)

(** What a path names.

    - [File lines] is a regular file that can be read to its end: its
      lines in order (with or without their line terminators, which no
      reader below looks at).
    - [Broken lines e] is a regular file that cannot: the reads return
      [lines], and the read after them raises [e] instead of finding the
      end of the file.  A file with bytes that cannot be decoded is one
      ([UnicodeDecodeError] once the reads reach them), and so is a file
      that may not be read ([PermissionError] and no line).
    - [Dir] is a directory. *)
Inductive node : Type :=
| File (lines : list string)
| Broken (lines : list string) (e : exn)
| Dir.

(** An open file: the lines that the reads return, and what the read
    after the last of them does: it finds the end of the file ([None]) or
    it raises. *)
Definition handle : Type := list string * option exn.

(** [open(path)] for reading. *)
Definition open (fs : gmap string node) (path : string) : result handle :=
  match fs !! path with
  | Some (File lines) => Ok (lines, None)
  | Some (Broken lines e) => Ok (lines, Some e)
  | Some Dir => Raise IsADirectoryError
  | None => Raise FileNotFoundError
  end.

(** [path.is_file()] *)
Definition is_file (fs : gmap string node) (path : string) : bool :=
  match fs !! path with
  | Some (File _) | Some (Broken _ _) => true
  | _ => false
  end.

(* ================================================================== *)
(** * Geometry *)

(** An atom is its element label and the tuple of the coordinates read for
    it; a frame is the list of its atoms. *)
Definition atom : Type := string * list float.
Definition frame : Type := list atom.

Definition dist2 `{Runtime} (a b : list float) : result float :=
  do a0 <- Py.getitem a 0; do b0 <- Py.getitem b 0;
  do d0 <- float_pow2 (a0 - b0);
  do a1 <- Py.getitem a 1; do b1 <- Py.getitem b 1;
  do d1 <- float_pow2 (a1 - b1);
  do a2 <- Py.getitem a 2; do b2 <- Py.getitem b 2;
  do d2 <- float_pow2 (a2 - b2);
  Ok (d0 + d1 + d2)%float.

(** [float(tok)], raising where the token is no number. *)
Definition float_or_raise `{Runtime} (tok : string) : result float :=
  match float_of_str tok with
  | Some x => Ok x
  | None => Raise ValueError
  end.

(** One atom line: [el, *xyz = line.split()[:4]] and the atom built from
    it.  An empty token list cannot be unpacked. *)
Definition atom_of_line `{Runtime} (line : string) : result atom :=
  match take 4 (str_split line) with
  | [] => Raise ValueError
  | el :: xyz => do coords <- traverse float_or_raise xyz; Ok (el, coords)
  end.

(** What [fh.readline()] does in the inner loop once the lines are used
    up: at the end of the file it returns the empty string, which has no
    token to unpack, a [ValueError]; in a broken file it raises. *)
Definition no_atom_line (tail : option exn) : exn :=
  match tail with
  | None => ValueError
  | Some e => e
  end.

(** The inner loop [for _ in range(nat)] of [frames_from_xyz] with [n] atom
    lines still to read from [fh] into [frame], followed by the [yield] and
    by the rest of the outer loop, which is [next_frames]. *)
Fixpoint read_atoms `{Runtime} (tail : option exn)
  (next_frames : list string -> result (list frame))
  (n : nat) (fh : list string) (frame : frame) {struct fh}
  : result (list (list atom)) :=
  match n with
  | O => do frames <- next_frames fh; Ok (frame :: frames)
  | S n' =>
      match fh with
      | [] => Raise (no_atom_line tail)
      | l :: fh' =>
          do a <- atom_of_line l;
          read_atoms tail next_frames n' fh' (frame ++ [a])
      end
  end.

(** The [while True] loop of [frames_from_xyz] over the lines [fh] not
    yet read, followed by [tail], collected as [list(...)] collects the
    generator.  The end of the file is the [break]; a line that is no
    atom count is skipped; [int] may refuse an atom count; after an atom
    count [nat] the comment line is dropped (at the end of the file there
    is none to drop) and the atom lines are read. *)
Fixpoint frames_of_lines `{Runtime} (tail : option exn) (fh : list string)
  : result (list frame) :=
  match fh with
  | [] =>
      match tail with
      | None => Ok []
      | Some e => Raise e
      end
  | line :: fh1 =>
      let line := str_strip line in
      if negb (str_isdigit line) then frames_of_lines tail fh1
      else
        match int_of_str line with
        | None => Raise ValueError
        | Some nat =>
            let nat := Z.to_nat nat in
            match fh1 with
            | [] =>
                match tail with
                | Some e => Raise e
                | None =>
                    match nat with
                    | O => Ok [[]]
                    | S _ => Raise ValueError
                    end
                end
            | _comment :: fh2 =>
                read_atoms tail (frames_of_lines tail) nat fh2 []
            end
        end
  end.

Definition frames_from_xyz `{Runtime} (fs : gmap string node) (fname : string)
  : result (list frame) :=
  do fh <- open fs fname; frames_of_lines fh.2 fh.1.

(* ================================================================== *)
(** * The (time, Ne) series of [monitor.out] *)

(** The body of [for line in f]: [times] and [nes] grow by one sample for
    a line that contains the marker and has at least two tokens that parse
    as floats. *)
Definition ne_line `{Runtime} (acc : list float * list float) (line : string)
  : list float * list float :=
  let '(times, nes) := acc in
  if negb (Py.contains "INFOLINE" line) then acc
  else
    let parts := str_split line in
    let floats := omap float_of_str parts in
    match floats with
    | t_fs :: ne :: _ => (times ++ [t_fs], nes ++ [ne])
    | _ => acc
    end.

(** The loop [for line in f], from [times = []] and [nes = []]. *)
Definition ne_lines `{Runtime} (f : list string) : list float * list float :=
  fold_left ne_line f ([], []).

(** The lists are returned when the loop has reached the end of the file;
    the body of the loop raises nothing, so that in a broken file the
    exception of the read is the outcome. *)
Definition load_ne_sequence `{Runtime} (fs : gmap string node)
  (monitor_path : string) : result (list float * list float) :=
  do f <- open fs monitor_path;
  match f.2 with
  | None => Ok (ne_lines f.1)
  | Some e => Raise e
  end.

(* ================================================================== *)
(** * Maximal runs at or below the cutoff *)

Section Segmenter.

(** The values may be of any type that can be compared with the cutoff
    by [<=]; [leb r cutoff] is the test [r <= cutoff]. *)
Context {A : Type} (leb : A -> A -> bool).

(** The state of the scan: the intervals appended so far and [start]. *)
Definition scan : Type := list (Z * Z) * option Z.

(** [if end - start + 1 >= min_len_frames: intervals.append((start, end))] *)
Definition close_run (min_len_frames : Z) (intervals : list (Z * Z))
  (start end_ : Z) : list (Z * Z) :=
  if min_len_frames <=? end_ - start + 1 then intervals ++ [(start, end_)]
  else intervals.

(** The body of [for i, r in enumerate(seq)]. *)
Definition scan_step (cutoff : A) (min_len_frames : Z)
  (st : scan) (ir : Z * A) : scan :=
  let '(intervals, start) := st in
  let '(i, r) := ir in
  if leb r cutoff then
    match start with
    | None => (intervals, Some i)
    | Some _ => (intervals, start)
    end
  else
    match start with
    | Some s => (close_run min_len_frames intervals s (i - 1), None)
    | None => (intervals, None)
    end.

Definition find_intervals (seq : list A) (cutoff : A) (min_len_frames : Z)
  : list (Z * Z) :=
  let '(intervals, start) :=
    fold_left (scan_step cutoff min_len_frames) (Py.enumerate seq) ([], None) in
  match start with
  | Some s => close_run min_len_frames intervals s (Py.len seq - 1)
  | None => intervals
  end.

End Segmenter.

(* ================================================================== *)
(** * First sample below the threshold *)

(** [for t_fs, ne in zip(times, nes): if ne < ne_threshold: t_ion_fs = t_fs;
    break], starting from [t_ion_fs = None]. *)
Fixpoint first_below (samples : list (float * float)) (ne_threshold : float)
  : option float :=
  match samples with
  | [] => None
  | (t_fs, ne) :: rest =>
      if (ne <? ne_threshold)%float then Some t_fs
      else first_below rest ne_threshold
  end.

Definition ionization_time (times nes : list float) (ne_threshold : float)
  : option float :=
  first_below (zip times nes) ne_threshold.

(* ================================================================== *)
(** * One trajectory *)

(** An interval with its times:
    [(start_idx, end_idx, t_start_fs, t_end_fs, duration_fs)]. *)
Definition enriched_interval : Type := Z * Z * float * float * float.

Record report : Type := Report {
  pair_intervals : gmap (Z * Z) (list enriched_interval);
  t_ion_fs : option float;
  n_frames : Z
}.

(** [i * traj_dt_fs] for an [int] frame index. *)
Definition frame_time (traj_dt_fs : float) (i : Z) : float :=
  (Py.float_of_int i * traj_dt_fs)%float.

(** [[i for i, el in enumerate(elems) if el.upper() == symbol]] *)
Definition indices_of (symbol : string) (elems : list string) : list Z :=
  map fst
    (List.filter (fun iel => String.eqb (Py.upper (snd iel)) symbol)
       (Py.enumerate elems)).

(** The distance of atoms [ci] and [hi] in one frame. *)
Definition pair_distance `{Runtime} (ci hi : Z) (fr : frame) : result float :=
  let coords := map snd fr in
  do a <- Py.getitem coords ci;
  do b <- Py.getitem coords hi;
  do d <- dist2 a b;
  Py.sqrt d.

(** The distance series of a pair over all the frames. *)
Definition distance_series `{Runtime} (frames : list frame) (ci hi : Z)
  : result (list float) :=
  traverse (pair_distance ci hi) frames.

(** The loop over [raw_intervals] that attaches the times. *)
Definition enrich (times_geom_fs : list float) (se : Z * Z)
  : result enriched_interval :=
  let '(start_idx, end_idx) := se in
  do t_start_fs <- Py.getitem times_geom_fs start_idx;
  do t_end_fs <- Py.getitem times_geom_fs end_idx;
  let duration_fs := (t_end_fs - t_start_fs)%float in
  Ok (start_idx, end_idx, t_start_fs, t_end_fs, duration_fs).

(** The body of [for hi in h_idx] for the carbon [ci]. *)
Definition pair_step `{Runtime} (frames : list frame) (times_geom_fs : list float)
  (r_cut : float) (min_len_frames : Z) (ci : Z)
  (pair_intervals : gmap (Z * Z) (list enriched_interval)) (hi : Z)
  : result (gmap (Z * Z) (list enriched_interval)) :=
  do seq <- distance_series frames ci hi;
  let raw_intervals := find_intervals PrimFloat.leb seq r_cut min_len_frames in
  match raw_intervals with
  | [] => Ok pair_intervals
  | _ =>
      do enriched <- traverse (enrich times_geom_fs) raw_intervals;
      Ok (<[(ci, hi) := enriched]> pair_intervals)
  end.

(** The body of [for ci in c_idx]. *)
Definition carbon_step `{Runtime} (frames : list frame) (times_geom_fs : list float)
  (r_cut : float) (min_len_frames : Z) (h_idx : list Z)
  (pair_intervals : gmap (Z * Z) (list enriched_interval)) (ci : Z)
  : result (gmap (Z * Z) (list enriched_interval)) :=
  for_each (pair_step frames times_geom_fs r_cut min_len_frames ci)
    h_idx pair_intervals.

(** The ionization time of the report: the monitor file is read only if a
    path is given and names a regular file. *)
Definition read_t_ion `{Runtime} (fs : gmap string node) (monitor_path : option string)
  (ne_threshold : float) : result (option float) :=
  match monitor_path with
  | None => Ok None
  | Some p =>
      if is_file fs p then
        do series <- load_ne_sequence fs p;
        let '(times_ne_fs, nes_all) := series in
        Ok (ionization_time times_ne_fs nes_all ne_threshold)
      else Ok None
  end.

Definition ch_intervals_for_traj `{Runtime} (fs : gmap string node) (traj_path : string)
  (monitor_path : option string) (r_cut : float) (min_len_frames : Z)
  (ne_threshold : float) (traj_dt_fs : float) : result report :=
  do frames <- frames_from_xyz fs traj_path;
  let n_frames := Py.len frames in
  if n_frames =? 0 then Ok (Report ∅ None 0)
  else
    let times_geom_fs := map (frame_time traj_dt_fs) (Py.range n_frames) in
    do t_ion_fs <- read_t_ion fs monitor_path ne_threshold;
    do first_frame <- Py.getitem frames 0;
    let elems := map fst first_frame in
    let c_idx := indices_of "C" elems in
    let h_idx := indices_of "H" elems in
    if Py.not_ c_idx || Py.not_ h_idx then Ok (Report ∅ t_ion_fs n_frames)
    else
      do pair_intervals <-
        for_each (carbon_step frames times_geom_fs r_cut min_len_frames h_idx)
          c_idx ∅;
      Ok (Report pair_intervals t_ion_fs n_frames).

(* ================================================================== *)
(** * Predicates used to state the properties *)

Section SegmenterSpec.

Context {A : Type} (leb : A -> A -> bool) (cutoff : A) (min_len : Z).

(** The value at index [k] of [l] is at or below the cutoff. *)
Definition within (l : list A) (k : Z) : Prop :=
  exists v, l !! Z.to_nat k = Some v /\ leb v cutoff = true.

(** The value at index [k] of [l] fails the test [r <= cutoff]. *)
Definition beyond (l : list A) (k : Z) : Prop :=
  exists v, l !! Z.to_nat k = Some v /\ leb v cutoff = false.

(** What holds of an interval once it has been appended inside the loop
    over the prefix [pre]: it is a run of values within the cutoff, long
    enough, and the value right after it is beyond the cutoff. *)
Definition closed_run (pre : list A) (se : Z * Z) : Prop :=
  0 <= se.1 /\ se.1 <= se.2 /\ se.2 + 1 < Py.len pre /\
  min_len <= se.2 - se.1 + 1 /\
  (forall k, se.1 <= k <= se.2 -> within pre k) /\
  beyond pre (se.2 + 1).

(** Later intervals start after the index that follows an earlier one. *)
Definition ordered (intervals : list (Z * Z)) : Prop :=
  forall (j1 j2 : nat) se1 se2,
    (j1 < j2)%nat -> intervals !! j1 = Some se1 -> intervals !! j2 = Some se2 ->
    se1.2 + 1 < se2.1.

(** The invariant of the loop after the prefix [pre] has been read. *)
Definition scan_inv (pre : list A) (st : scan) : Prop :=
  Forall (closed_run pre) st.1 /\
  ordered st.1 /\
  match st.2 with
  | Some s =>
      0 <= s < Py.len pre /\
      (forall k, s <= k < Py.len pre -> within pre k) /\
      Forall (fun se => se.2 + 1 < s) st.1
  | None => True
  end.

(** What holds of every interval returned: as [closed_run], but the last
    interval may end with the sequence. *)
Definition run_of (seq : list A) (se : Z * Z) : Prop :=
  0 <= se.1 /\ se.1 <= se.2 /\ se.2 < Py.len seq /\
  min_len <= se.2 - se.1 + 1 /\
  (forall k, se.1 <= k <= se.2 -> within seq k).

End SegmenterSpec.

(** The lines [ls] are whole frames, [fs] in order, with lines between
    them that are no atom count: a coordinate file that ends at a frame
    boundary. *)
Inductive whole_frames `{Runtime} : list string -> list frame -> Prop :=
| whole_nil : whole_frames [] []
| whole_skip l ls fs :
    str_isdigit (str_strip l) = false ->
    whole_frames ls fs ->
    whole_frames (l :: ls) fs
| whole_frame count nat comment atoms fr ls fs :
    str_isdigit (str_strip count) = true ->
    int_of_str (str_strip count) = Some nat ->
    length atoms = Z.to_nat nat ->
    traverse atom_of_line atoms = Ok fr ->
    whole_frames ls fs ->
    whole_frames (count :: comment :: atoms ++ ls) (fr :: fs).

(** The token parses as a floating-point number. *)
Definition parses `{Runtime} (tok : string) : bool :=
  match float_of_str tok with
  | Some _ => true
  | None => false
  end.

(** The tokens of a line that parse as numbers, from left to right. *)
Definition numeric_tokens `{Runtime} (line : string) : list string :=
  List.filter parses (str_split line).

(** The line of [monitor.out] given as an example in the script. *)
Definition INFOLINE_example : string :=
  "INFOLINE:  3.9999900000000002E+002  9.4880000371352313E+000  -5.97E+002".

(** A trajectory of five frames with a carbon at the origin and a
    hydrogen on the first axis at the distances 1.8, 1.9, 2.1, 1.7 and
    1.6, and a monitor file with the samples (0, 10.0), (100, 9.6) and
    (200, 9.4). *)
Definition example_fs : gmap string node :=
  {[ "td1/trajectory.xyz" :=
       File ["2"; "frame 0"; "C 0.0 0.0 0.0"; "H 1.8 0.0 0.0";
             "2"; "frame 1"; "C 0.0 0.0 0.0"; "H 1.9 0.0 0.0";
             "2"; "frame 2"; "C 0.0 0.0 0.0"; "H 2.1 0.0 0.0";
             "2"; "frame 3"; "C 0.0 0.0 0.0"; "H 1.7 0.0 0.0";
             "2"; "frame 4"; "C 0.0 0.0 0.0"; "H 1.6 0.0 0.0"];
     "td1/monitor.out" :=
       File ["INFOLINE: 0 10.0"; "INFOLINE: 100 9.6"; "INFOLINE: 200 9.4"] ]}%string.

Definition example_frames : list frame :=
  map (fun x => [("C", [0; 0; 0]); ("H", [x; 0; 0])]%float%string)
    [1.8; 1.9; 2.1; 1.7; 1.6]%float.

(** A trajectory of two frames with a carbon, a hydrogen near it, a
    hydrogen written in lower case far from it, and an oxygen. *)
Definition example_fs_far : gmap string node :=
  {[ "td2/trajectory.xyz" :=
       File ["4"; "frame 0";
             "C 0.0 0.0 0.0"; "H 1.0 0.0 0.0"; "h 5.0 0.0 0.0"; "O 0.0 1.0 0.0";
             "4"; "frame 1";
             "C 0.0 0.0 0.0"; "H 1.1 0.0 0.0"; "h 5.0 0.0 0.0"; "O 0.0 1.0 0.0"] ]}%string.

Definition example_frames_far : list frame :=
  map (fun x => [("C", [0; 0; 0]); ("H", [x; 0; 0]);
                 ("h", [5; 0; 0]); ("O", [0; 1; 0])]%float%string)
    [1.0; 1.1]%float.

(** Atom [i] of the frame [f0] has the label [symbol], in either case. *)
Definition labelled (symbol : string) (f0 : frame) (i : Z) : Prop :=
  0 <= i /\
  exists el xyz, f0 !! Z.to_nat i = Some (el, xyz) /\ Py.upper el = symbol.

(** The distance series of the pair has at least one interval. *)
Definition qualifies `{Runtime} (frames : list frame) (r_cut : float) (min_len_frames : Z)
  (ci hi : Z) : Prop :=
  exists seq, distance_series frames ci hi = Ok seq /\
    find_intervals PrimFloat.leb seq r_cut min_len_frames <> [].

(** The list [v] is what the report holds for the pair: the intervals of
    its distance series, of which there is at least one, each with its
    times looked up in [times_geom_fs]. *)
Definition pair_entry `{Runtime} (frames : list frame) (times_geom_fs : list float)
  (r_cut : float) (min_len_frames : Z) (ci hi : Z)
  (v : list enriched_interval) : Prop :=
  exists seq, distance_series frames ci hi = Ok seq /\
    find_intervals PrimFloat.leb seq r_cut min_len_frames <> [] /\
    traverse (enrich times_geom_fs)
      (find_intervals PrimFloat.leb seq r_cut min_len_frames) = Ok v.

(** What a map of the loop holds: what [acc0] held or entries of pairs
    that were visited; and it holds something for each of those pairs that
    qualify. *)
Definition loop_inv `{Runtime} (frames : list frame) (times_geom_fs : list float)
  (r_cut : float) (min_len_frames : Z)
  (acc0 : gmap (Z * Z) (list enriched_interval))
  (visited : Z * Z -> Prop) (m : gmap (Z * Z) (list enriched_interval)) : Prop :=
  (forall ci hi v, m !! (ci, hi) = Some v ->
     acc0 !! (ci, hi) = Some v \/
     (visited (ci, hi) /\
      pair_entry frames times_geom_fs r_cut min_len_frames ci hi v)) /\
  (forall ci hi,
     is_Some (acc0 !! (ci, hi)) \/
     (visited (ci, hi) /\ qualifies frames r_cut min_len_frames ci hi) ->
     is_Some (m !! (ci, hi))).

Section RunSpec.

Context {A : Type} (leb : A -> A -> bool) (cutoff : A) (min_len : Z).

(** [[s, e]] is a maximal run of the sequence: its values are within the
    cutoff, the value before it, if there is one, is beyond the cutoff,
    and so is the value after it. *)
Definition maximal_run (seq : list A) (se : Z * Z) : Prop :=
  0 <= se.1 /\ se.1 <= se.2 /\ se.2 < Py.len seq /\
  (forall k, se.1 <= k <= se.2 -> within leb cutoff seq k) /\
  (se.1 = 0 \/ beyond leb cutoff seq (se.1 - 1)) /\
  (se.2 = Py.len seq - 1 \/ beyond leb cutoff seq (se.2 + 1)).

(** The state of the scan of [seq] before index [i]: the intervals are
    the maximal runs of sufficient length that end before [i - 1], and
    [start] is the start of the run that reaches [i - 1], if there is
    one. *)
Definition run_inv (seq : list A) (i : Z) (st : scan) : Prop :=
  (forall s e, (s, e) ∈ st.1 <->
     0 <= s /\ s <= e /\ e + 1 < i /\ min_len <= e - s + 1 /\
     (forall k, s <= k <= e -> within leb cutoff seq k) /\
     (s = 0 \/ beyond leb cutoff seq (s - 1)) /\
     beyond leb cutoff seq (e + 1)) /\
  match st.2 with
  | Some s0 =>
      0 <= s0 < i /\
      (forall k, s0 <= k < i -> within leb cutoff seq k) /\
      (s0 = 0 \/ beyond leb cutoff seq (s0 - 1))
  | None => i = 0 \/ beyond leb cutoff seq (i - 1)
  end.

End RunSpec.

(** The interval [se] moved by [k] frames. *)
Definition shift_interval (k : Z) (se : Z * Z) : Z * Z := (se.1 + k, se.2 + k).

(** The interval has at least [min_len] frames. *)
Definition long_enough (min_len : Z) (se : Z * Z) : bool :=
  min_len <=? se.2 - se.1 + 1.

(** * The monitor file of a directory *)

(** [find_monitor_file]: the first of [td_dir / "monitor.out"] and
    [td_dir / "Monitor.out"] that is a file.  [first_file] is the loop
    [for name in candidates] over the paths [td_dir / name]; the operator
    [/] of [pathlib] is the parameter [joinpath]. *)
Fixpoint first_file (fs : gmap string node) (paths : list string)
  : option string :=
  match paths with
  | [] => None
  | p :: rest => if is_file fs p then Some p else first_file fs rest
  end.

Definition find_monitor_file (joinpath : string -> string -> string)
  (fs : gmap string node) (td_dir : string) : option string :=
  let candidates := ["monitor.out"; "Monitor.out"]%string in
  first_file fs (map (joinpath td_dir) candidates).

(** [d / name] for a directory path [d] that is written without a slash at
    its end. *)
Definition slash (d name : string) : string := (d ++ "/" ++ name)%string.

(** A spec float that is not below zero: a NaN, a zero, or a number or
    infinity with the positive sign. *)
Definition sf_nonneg (f : spec_float) : Prop :=
  match f with
  | S754_nan | S754_zero _ => True
  | S754_infinity s | S754_finite s _ _ => s = false
  end.

(** The interval with the times of its first and last frame and its
    duration. *)
Definition with_times (traj_dt_fs : float) (se : Z * Z) : enriched_interval :=
  (se.1, se.2, frame_time traj_dt_fs se.1, frame_time traj_dt_fs se.2,
   (frame_time traj_dt_fs se.2 - frame_time traj_dt_fs se.1)%float).



(** The floats that [<] does not put below zero: the numbers from zero on,
    the positive infinity and the NaN. *)
Definition not_below_zero (x : float) : Prop := (x <? 0)%float = false.

(** What the C standard says of [pow(x, 2.0)]: the result is not below
    zero, and the call reports no domain error. *)
Definition libm_pow2_sound `{Runtime} : Prop :=
  forall x, not_below_zero (libm_pow2 x).1 /\ (libm_pow2 x).2 <> Some EDOM.

(* ================================================================== *)
(** * Properties of the exception monad *)

Lemma rbind_Ok {A B} (c : result A) (k : A -> result B) (b : B) :
  rbind c k = Ok b <-> exists a, c = Ok a /\ k a = Ok b.
Proof.
  destruct c as [a|e]; simpl; split.
  - intros H. exists a. auto.
  - intros (a' & [= <-] & H). exact H.
  - discriminate.
  - intros (a' & [=] & _).
Qed.

Lemma traverse_Ok_length {A B} (f : A -> result B) l ys :
  traverse f l = Ok ys -> length ys = length l.
Proof.
  revert ys. induction l as [|x l IH]; simpl; intros ys H.
  - injection H as <-. reflexivity.
  - apply rbind_Ok in H as (y & _ & H).
    apply rbind_Ok in H as (ys' & Hys & [= <-]).
    simpl. f_equal. auto.
Qed.

Lemma traverse_Ok_lookup {A B} (f : A -> result B) l ys (i : nat) x :
  traverse f l = Ok ys -> l !! i = Some x ->
  exists y, ys !! i = Some y /\ f x = Ok y.
Proof.
  revert ys i. induction l as [|x0 l IH]; simpl; intros ys i H Hi.
  - discriminate.
  - apply rbind_Ok in H as (y & Hy & H).
    apply rbind_Ok in H as (ys' & Hys & [= <-]).
    destruct i as [|i]; simpl in *.
    + injection Hi as ->. eauto.
    + eauto.
Qed.

Lemma traverse_Ok_nil {A B} (f : A -> result B) l :
  traverse f l = Ok [] -> l = [].
Proof.
  intros H. apply traverse_Ok_length in H. destruct l; [reflexivity|discriminate].
Qed.

(* ================================================================== *)
(** * The built-ins on examples *)

Example split_examples :
  Py.split "  INFOLINE:  3.99E+002 9.48E+000 -5.97E+002 "%string
  = ["INFOLINE:"; "3.99E+002"; "9.48E+000"; "-5.97E+002"]%string /\
  Py.split "" = [] /\
  Py.split "   " = [] /\
  Py.strip "  12 "%string = "12"%string.
Proof. repeat split. Qed.

Example isdigit_examples :
  Py.isdigit "12" = true /\ Py.isdigit "" = false /\
  Py.isdigit "-1" = false /\ Py.isdigit "1 2" = false /\
  Py.isdigit "1.0" = false /\ Py.int_of_digits "012" = 12.
Proof. repeat split. Qed.

Example contains_examples :
  Py.contains "INFOLINE" "xxINFOLINE: 1 2" = true /\
  Py.contains "INFOLINE" "infoline 1 2" = false /\
  Py.contains "INFOLINE" "INFOLIN" = false.
Proof. repeat split. Qed.

(** Decimal strings are rounded to the nearest double, ties to even, also
    among the subnormal numbers and at the largest double; what is no
    number has no value. *)
Example float_examples :
  Py.float "1.8" = Some 1.8%float /\
  Py.float "-5.97E+002" = Some (-597)%float /\
  Py.float ".5" = Some 0.5%float /\
  Py.float "5." = Some 5%float /\
  Py.float "1_0.5e-1" = Some 1.05%float /\
  Py.float "9007199254740993" = Some 9007199254740992%float /\
  Py.float "2.4703282292062328e-324" = Some 0x1p-1074%float /\
  Py.float "2.4703282292062327e-324" = Some 0%float /\
  Py.float "1.7976931348623157e308" = Some 0x1.fffffffffffffp+1023%float /\
  Py.float "1e400" = Some infinity /\
  Py.float "-Infinity" = Some neg_infinity /\
  Py.float "NaN" = Some nan /\
  Py.float "-0.0" = Some (-0)%float /\
  Py.float "INFOLINE:" = None /\
  Py.float "" = None /\
  Py.float "." = None /\
  Py.float "1e" = None /\
  Py.float "1__0" = None /\
  Py.float "_1" = None /\
  Py.float "1_" = None /\
  Py.float "0x10" = None /\
  Py.float "1,5" = None.
Proof. vm_compute. repeat split. Qed.

(** The reader at the end of a file and at the exception that ends a
    broken one. *)
Example frames_of_lines_examples :
  frames_of_lines None ["2"; "frame 0"; "C 0 0 0"; "H 1.8 0 0 extra"; "";
                        "junk"; " 1 "; ""; "h 1 2"]%string
  = Ok [[("C", [0; 0; 0]); ("H", [1.8; 0; 0])]; [("h", [1; 2])]]%float%string /\
  frames_of_lines None ["0"]%string = Ok [[]] /\
  frames_of_lines None ["1"]%string = Raise ValueError /\
  frames_of_lines None ["1"; "frame 0"; ""]%string = Raise ValueError /\
  frames_of_lines None ["1"; "frame 0"; "C x 0 0"]%string = Raise ValueError /\
  frames_of_lines (Some UnicodeDecodeError) ["1"; "frame 0"; "C 0 0 0"]%string
  = Raise UnicodeDecodeError /\
  frames_of_lines (Some UnicodeDecodeError) ["1"; "frame 0"]%string
  = Raise UnicodeDecodeError /\
  frames_of_lines (Some UnicodeDecodeError) ["1"; "frame 0"; "C x 0 0"]%string
  = Raise ValueError /\
  frames_of_lines (Some PermissionError) [] = Raise PermissionError.
Proof. vm_compute. repeat split. Qed.

(** Squares with the rounded product for [pow(x, 2.0)]. *)
Example float_pow2_examples :
  float_pow2 (-1.8)%float = Ok 3.24%float /\
  float_pow2 (-0)%float = Ok 0%float /\
  float_pow2 neg_infinity = Ok infinity /\
  float_pow2 1e200%float = Raise OverflowError /\
  float_pow2 1e-200%float = Ok 0%float.
Proof. vm_compute. repeat split. Qed.

Example find_intervals_examples :
  find_intervals Z.leb [1; 3; 1; 1; 5; 1] 2 1 = [(0, 0); (2, 3); (5, 5)] /\
  find_intervals Z.leb [1; 3; 1; 1; 5; 1] 2 2 = [(2, 3)] /\
  find_intervals Z.leb [1; 1; 1] 2 1 = [(0, 2)] /\
  find_intervals Z.leb [] 2 1 = [] /\
  find_intervals Z.leb [3; 3] 2 1 = [].
Proof. repeat split. Qed.

(* ================================================================== *)
(** * The interval segmenter *)

Section SegmenterFacts.

Context {A : Type} (leb : A -> A -> bool) (cutoff : A) (min_len : Z).

Local Abbreviation within := (within leb cutoff).
Local Abbreviation beyond := (beyond leb cutoff).
Local Abbreviation closed_run := (closed_run leb cutoff min_len).
Local Abbreviation scan_inv := (scan_inv leb cutoff min_len).
Local Abbreviation run_of := (run_of leb cutoff min_len).

Lemma within_app l l' k : within l k -> within (l ++ l') k.
Proof.
  intros (v & Hv & Hle). exists v. split; [|exact Hle].
  rewrite lookup_app_l; [exact Hv|]. eapply lookup_lt_Some, Hv.
Qed.

Lemma beyond_app l l' k : beyond l k -> beyond (l ++ l') k.
Proof.
  intros (v & Hv & Hle). exists v. split; [|exact Hle].
  rewrite lookup_app_l; [exact Hv|]. eapply lookup_lt_Some, Hv.
Qed.

Lemma lookup_snoc_len (l : list A) r :
  (l ++ [r]) !! Z.to_nat (Py.len l) = Some r.
Proof.
  unfold Py.len. rewrite Nat2Z.id, lookup_app_r by lia.
  rewrite Nat.sub_diag. reflexivity.
Qed.

Lemma len_snoc (l : list A) r : Py.len (l ++ [r]) = Py.len l + 1.
Proof. unfold Py.len. rewrite length_app. simpl. lia. Qed.

Lemma closed_run_app pre l se : closed_run pre se -> closed_run (pre ++ l) se.
Proof.
  intros (H0 & H1 & H2 & H3 & H4 & H5). repeat split; auto.
  - unfold Py.len in *. rewrite length_app. lia.
  - intros k Hk. apply within_app. auto.
  - apply beyond_app. auto.
Qed.

Lemma ordered_snoc intervals se :
  ordered intervals -> Forall (fun se' => se'.2 + 1 < se.1) intervals ->
  ordered (intervals ++ [se]).
Proof.
  intros Hord Hall j1 j2 se1 se2 Hlt H1 H2.
  assert (Hj2 : (j2 < length (intervals ++ [se]))%nat)
    by (eapply lookup_lt_Some; eauto).
  rewrite length_app in Hj2. simpl in Hj2.
  destruct (decide (j2 < length intervals)%nat) as [Hin|Hout].
  - rewrite lookup_app_l in H1, H2 by lia. eauto.
  - assert (j2 = length intervals) as -> by lia.
    rewrite lookup_app_l in H1 by lia.
    rewrite lookup_app_r, Nat.sub_diag in H2 by lia.
    injection H2 as <-.
    rewrite Forall_forall in Hall. apply Hall.
    eapply list_elem_of_lookup_2; eauto.
Qed.

Lemma scan_inv_nil : scan_inv [] ([], None).
Proof.
  repeat split; simpl; auto.
  intros j1 j2 se1 se2 _ H. rewrite lookup_nil in H. discriminate.
Qed.

Lemma scan_step_inv pre st r :
  scan_inv pre st ->
  scan_inv (pre ++ [r]) (scan_step leb cutoff min_len st (Py.len pre, r)).
Proof.
  destruct st as [intervals start]. intros (Hruns & Hord & Hstart).
  simpl in Hruns, Hord, Hstart.
  assert (Hruns' : Forall (closed_run (pre ++ [r])) intervals).
  { eapply Forall_impl; [exact Hruns|]. intros se. apply closed_run_app. }
  pose proof (len_snoc pre r) as Hlen.
  assert (Hpos : 0 <= Py.len pre) by (unfold Py.len; lia).
  unfold scan_step. destruct (leb r cutoff) eqn:Hr.
  - (* the value is within the cutoff: a run opens or goes on *)
    destruct start as [s|].
    + destruct Hstart as (Hs & Hwithin & Hbefore).
      repeat split; simpl; auto; try lia.
      intros k Hk. destruct (decide (k = Py.len pre)) as [->|Hne].
      * exists r. split; [apply lookup_snoc_len|exact Hr].
      * apply within_app, Hwithin. lia.
    + repeat split; simpl; auto; try lia.
      * intros k Hk. assert (k = Py.len pre) as -> by lia.
        exists r. split; [apply lookup_snoc_len|exact Hr].
      * eapply Forall_impl; [exact Hruns|].
        intros se (_ & _ & H & _). simpl. lia.
  - (* the value is beyond the cutoff: an open run is closed *)
    destruct start as [s|]; [|repeat split; simpl; auto].
    destruct Hstart as (Hs & Hwithin & Hbefore).
    unfold close_run. destruct (min_len <=? Py.len pre - 1 - s + 1) eqn:Hm.
    + apply Z.leb_le in Hm.
      repeat split; simpl; auto.
      * apply Forall_app. split; [exact Hruns'|].
        apply Forall_singleton. repeat split; simpl; try lia.
        -- intros k Hk. apply within_app, Hwithin. lia.
        -- replace (Py.len pre - 1 + 1) with (Py.len pre) by lia.
           exists r. split; [apply lookup_snoc_len|exact Hr].
      * apply ordered_snoc; auto.
    + repeat split; simpl; auto.
Qed.

Lemma scan_fold_inv suf : forall pre st,
  scan_inv pre st ->
  scan_inv (pre ++ suf)
    (fold_left (scan_step leb cutoff min_len)
       (Py.enumerate_from (Py.len pre) suf) st).
Proof.
  induction suf as [|r suf IH]; intros pre st Hinv; simpl.
  - rewrite app_nil_r. exact Hinv.
  - replace (pre ++ r :: suf) with ((pre ++ [r]) ++ suf)
      by (rewrite <- app_assoc; reflexivity).
    rewrite <- (len_snoc pre r). apply IH, scan_step_inv, Hinv.
Qed.

Lemma closed_run_run_of seq se : closed_run seq se -> run_of seq se.
Proof. intros (H0 & H1 & H2 & H3 & H4 & _). repeat split; auto. lia. Qed.

(** The result of [find_intervals]: runs in increasing order, each but
    the last followed by a value beyond the cutoff. *)
Lemma find_intervals_inv seq :
  let intervals := find_intervals leb seq cutoff min_len in
  Forall (run_of seq) intervals /\
  ordered intervals /\
  (forall (j : nat) se, intervals !! j = Some se ->
     (S j < length intervals)%nat -> beyond seq (se.2 + 1)).
Proof.
  unfold find_intervals, Py.enumerate.
  pose proof (scan_fold_inv seq [] ([], None) scan_inv_nil) as Hinv.
  simpl in Hinv.
  destruct (fold_left _ _ _) as [intervals start].
  destruct Hinv as (Hruns & Hord & Hstart). simpl in Hruns, Hord, Hstart.
  assert (Hbeyond : forall (j : nat) se, intervals !! j = Some se ->
                      beyond seq (se.2 + 1)).
  { intros j se Hj. rewrite Forall_forall in Hruns.
    apply list_elem_of_lookup_2 in Hj. apply Hruns in Hj. apply Hj. }
  assert (Hrun_of : Forall (run_of seq) intervals).
  { eapply Forall_impl; [exact Hruns|]. apply closed_run_run_of. }
  destruct start as [s|]; [|simpl; eauto].
  destruct Hstart as (Hs & Hwithin & Hbefore).
  unfold close_run. destruct (min_len <=? _) eqn:Hm; [|simpl; eauto].
  apply Z.leb_le in Hm. simpl. repeat split.
  - apply Forall_app. split; [exact Hrun_of|].
    apply Forall_singleton. repeat split; simpl; try lia.
    intros k Hk. apply Hwithin. lia.
  - apply ordered_snoc; auto.
  - intros j se Hj Hlast. rewrite length_app in Hlast. simpl in Hlast.
    rewrite lookup_app_l in Hj by lia. eauto.
Qed.

(** A sequence of values within the cutoff is scanned without closing
    anything: the run that is open stays open, and a run opens at the first
    index if none is. *)
Lemma scan_fold_within l : forall i intervals start,
  Forall (fun v => leb v cutoff = true) l ->
  fold_left (scan_step leb cutoff min_len) (Py.enumerate_from i l)
    (intervals, start)
  = (intervals,
     match start, l with
     | None, [] => None
     | None, _ :: _ => Some i
     | Some s, _ => Some s
     end).
Proof.
  induction l as [|r l IH]; intros i intervals start Hall.
  - destruct start; reflexivity.
  - apply Forall_cons in Hall as [Hr Hall]. simpl. rewrite Hr.
    destruct start as [s|]; rewrite IH by exact Hall; reflexivity.
Qed.

Lemma find_intervals_all_within l :
  l <> [] -> Forall (fun v => leb v cutoff = true) l -> min_len <= Py.len l ->
  find_intervals leb l cutoff min_len = [(0, Py.len l - 1)].
Proof.
  intros Hne Hall Hlen. unfold find_intervals, Py.enumerate.
  rewrite scan_fold_within by exact Hall.
  destruct l as [|r l]; [congruence|].
  unfold close_run.
  replace (min_len <=? Py.len (r :: l) - 1 - 0 + 1) with true
    by (symmetry; apply Z.leb_le; lia).
  reflexivity.
Qed.

(** The slice [seq[s : e + 1]] of a run consists of values within the
    cutoff, [e - s + 1] of them. *)
Lemma run_of_slice seq se :
  run_of seq se ->
  let l := Py.slice seq se.1 (se.2 + 1) in
  Py.len l = se.2 - se.1 + 1 /\ Forall (fun v => leb v cutoff = true) l.
Proof.
  destruct se as [s e]. simpl.
  intros (H0 & H1 & H2 & _ & Hwithin). simpl in *.
  unfold Py.slice, Py.clip.
  replace (e + 1 <? 0) with false by (symmetry; apply Z.ltb_ge; lia).
  replace (s <? 0) with false by (symmetry; apply Z.ltb_ge; lia).
  rewrite !Z.min_r by lia.
  split.
  - unfold Py.len in *. rewrite length_take, length_drop. lia.
  - apply Forall_lookup. intros i v Hi.
    apply lookup_take_Some in Hi as [Hi Hlt].
    rewrite lookup_drop in Hi.
    destruct (Hwithin (s + Z.of_nat i)) as (v' & Hv' & Hle); [lia|].
    replace (Z.to_nat (s + Z.of_nat i)) with (Z.to_nat s + i)%nat in Hv' by lia.
    congruence.
Qed.

End SegmenterFacts.

(** Every interval returned is a run of the sequence. *)
Lemma find_intervals_run_of {A : Type} (leb : A -> A -> bool)
  (seq : list A) (cutoff : A) (min_len_frames : Z) (se : Z * Z) :
  se ∈ find_intervals leb seq cutoff min_len_frames ->
  run_of leb cutoff min_len_frames seq se.
Proof.
  intros Hin.
  destruct (find_intervals_inv leb cutoff min_len_frames seq) as (Hruns & _).
  rewrite Forall_forall in Hruns. auto.
Qed.

(** Behind the end of an interval that is not the last, the next index
    holds a value beyond the cutoff, and any later interval starts after
    it. *)
Lemma find_intervals_gap {A : Type} (leb : A -> A -> bool)
  (seq : list A) (cutoff : A) (min_len_frames : Z)
  (j1 j2 : nat) (se1 se2 : Z * Z) :
  (j1 < j2)%nat ->
  find_intervals leb seq cutoff min_len_frames !! j1 = Some se1 ->
  find_intervals leb seq cutoff min_len_frames !! j2 = Some se2 ->
  se1.2 + 1 < se2.1 /\ beyond leb cutoff seq (se1.2 + 1).
Proof.
  intros Hlt H1 H2.
  destruct (find_intervals_inv leb cutoff min_len_frames seq)
    as (_ & Hord & Hnext).
  split; [eapply Hord; eauto|].
  eapply Hnext; [exact H1|]. apply lookup_lt_Some in H2. lia.
Qed.

(** ** Floats that are numbers

    Two floats of which none is a NaN are comparable: if [x <= c] fails
    then [c < x]. *)

Lemma SFcompare_Gt_Lt x y : SFcompare x y = Some Gt -> SFcompare y x = Some Lt.
Proof.
  destruct x as [sx|sx| |sx mx ex], y as [sy|sy| |sy my ey]; simpl;
    try discriminate;
    try (destruct sx; try destruct sy; simpl; congruence).
  pose proof (Pos.compare_cont_antisym mx my Eq) as Hanti. simpl in Hanti.
  destruct sx, sy; simpl; try congruence;
    rewrite (Z.compare_antisym ex ey);
    destruct (ex ?= ey); simpl; try congruence;
    rewrite <- Hanti;
    destruct (Pos.compare_cont Eq mx my); simpl; congruence.
Qed.

Lemma is_nan_false_Prim2SF x : is_nan x = false -> Prim2SF x <> S754_nan.
Proof.
  unfold is_nan. rewrite FloatAxioms.eqb_spec. unfold SFeqb.
  intros H Hnan. rewrite Hnan in H. discriminate.
Qed.

Lemma float_not_leb_ltb (x c : float) :
  is_nan x = false -> is_nan c = false ->
  (x <=? c)%float = false -> (c <? x)%float = true.
Proof.
  intros Hx Hc. apply is_nan_false_Prim2SF in Hx, Hc.
  rewrite leb_spec, ltb_spec. unfold SFleb, SFltb.
  destruct (SFcompare (Prim2SF x) (Prim2SF c)) as [[]|] eqn:Hcmp;
    try discriminate; intros _.
  - rewrite (SFcompare_Gt_Lt _ _ Hcmp). reflexivity.
  - exfalso. destruct (Prim2SF x), (Prim2SF c); simpl in Hcmp;
      try discriminate; congruence.
Qed.

(** Between two intervals of a distance series without NaN, cut at a
    cutoff that is not a NaN, there is a frame whose distance exceeds
    the cutoff. *)
Lemma find_intervals_float_gap (seq : list float) (cutoff : float)
  (min_len_frames : Z) (j1 j2 : nat) (s1 e1 s2 e2 : Z) :
  Forall (fun r => is_nan r = false) seq -> is_nan cutoff = false ->
  (j1 < j2)%nat ->
  find_intervals PrimFloat.leb seq cutoff min_len_frames !! j1 = Some (s1, e1) ->
  find_intervals PrimFloat.leb seq cutoff min_len_frames !! j2 = Some (s2, e2) ->
  exists k r, e1 < k < s2 /\ seq !! Z.to_nat k = Some r /\
    (cutoff <? r)%float = true.
Proof.
  intros Hseq Hcut Hlt H1 H2.
  destruct (find_intervals_gap _ _ _ _ _ _ _ _ Hlt H1 H2)
    as (Hgap & r & Hr & Hbeyond). simpl in *.
  exists (e1 + 1), r. repeat split; try lia; [exact Hr|].
  apply float_not_leb_ltb; auto.
  rewrite Forall_forall in Hseq. eapply Hseq, list_elem_of_lookup_2, Hr.
Qed.

(** C1.  Every interval [(s, e)] returned by [find_intervals] satisfies
    [e >= s], has length [e - s + 1 >= min_len_frames], and every value of
    the sequence at an index in [[s, e]] passes the test [r <= cutoff]; the
    indices are those of the sequence, [0 <= s] and [e < len(seq)]. *)
Theorem find_intervals_sound {A : Type} (leb : A -> A -> bool)
  (seq : list A) (cutoff : A) (min_len_frames : Z) (s e : Z) :
  (s, e) ∈ find_intervals leb seq cutoff min_len_frames ->
  e >= s /\
  e - s + 1 >= min_len_frames /\
  (forall k, s <= k <= e ->
     exists r, seq !! Z.to_nat k = Some r /\ leb r cutoff = true) /\
  0 <= s /\ e < Py.len seq.
Proof.
  intros Hin.
  destruct (find_intervals_run_of _ _ _ _ _ Hin) as (H0 & H1 & H2 & H3 & H4).
  simpl in *. repeat split; try lia. exact H4.
Qed.

Lemma find_intervals_sound_witness :
  (2, 3) ∈ find_intervals Z.leb [1; 3; 1; 1; 5; 1] 2 2 /\
  3 >= 2 /\
  3 - 2 + 1 >= 2 /\
  (forall k, 2 <= k <= 3 ->
     exists r, [1; 3; 1; 1; 5; 1] !! Z.to_nat k = Some r /\ (r <=? 2) = true) /\
  0 <= 2 /\ 3 < Py.len [1; 3; 1; 1; 5; 1].
Proof.
  assert (H : (2, 3) ∈ find_intervals Z.leb [1; 3; 1; 1; 5; 1] 2 2)
    by (vm_compute; constructor).
  split; [exact H|].
  exact (find_intervals_sound Z.leb [1; 3; 1; 1; 5; 1] 2 2 2 3 H).
Defined.

(** C4, as the code has it.  In the list returned by [find_intervals] no
    two intervals are adjacent or overlap: an interval that comes later in
    the list starts after an index that lies strictly behind the end of
    the earlier one and whose value fails the test [r <= cutoff].  In
    particular this index exists between any two consecutive intervals.
    A float that fails the test exceeds the cutoff unless it or the cutoff
    is a NaN. *)
Theorem find_intervals_separated {A : Type} (leb : A -> A -> bool)
  (seq : list A) (cutoff : A) (min_len_frames : Z)
  (j1 j2 : nat) (s1 e1 s2 e2 : Z) :
  (j1 < j2)%nat ->
  find_intervals leb seq cutoff min_len_frames !! j1 = Some (s1, e1) ->
  find_intervals leb seq cutoff min_len_frames !! j2 = Some (s2, e2) ->
  (exists k r, e1 < k < s2 /\ seq !! Z.to_nat k = Some r /\
     leb r cutoff = false) /\
  (forall x c : float, (x <=? c)%float = false ->
     (c <? x)%float = true \/ is_nan x = true \/ is_nan c = true).
Proof.
  intros Hlt H1 H2. split.
  - destruct (find_intervals_gap _ _ _ _ _ _ _ _ Hlt H1 H2)
      as (Hgap & r & Hr & Hbeyond). simpl in *.
    exists (e1 + 1), r. repeat split; try lia; [exact Hr|exact Hbeyond].
  - intros x c Hle.
    destruct (is_nan x) eqn:Hx; [right; left; reflexivity|].
    destruct (is_nan c) eqn:Hc; [right; right; reflexivity|].
    left. apply float_not_leb_ltb; assumption.
Qed.

Lemma find_intervals_separated_witness :
  let seq := [1.8; 1.9; 2.1; 1.7; 1.6]%float in
  (0 < 1)%nat /\
  find_intervals PrimFloat.leb seq 2.0%float 1 !! 0%nat = Some (0, 1) /\
  find_intervals PrimFloat.leb seq 2.0%float 1 !! 1%nat = Some (3, 4) /\
  exists k r, 1 < k < 3 /\ seq !! Z.to_nat k = Some r /\
    (r <=? 2.0)%float = false.
Proof.
  intros seq.
  assert (H1 : find_intervals PrimFloat.leb seq 2.0%float 1 !! 0%nat = Some (0, 1))
    by (vm_compute; reflexivity).
  assert (H2 : find_intervals PrimFloat.leb seq 2.0%float 1 !! 1%nat = Some (3, 4))
    by (vm_compute; reflexivity).
  split; [lia|]. split; [exact H1|]. split; [exact H2|].
  exact (proj1 (find_intervals_separated PrimFloat.leb seq 2.0%float 1
                  0%nat 1%nat 0 1 3 4 ltac:(lia) H1 H2)).
Defined.

(** C4, as the claim has it, fails on a distance that is no number: a NaN
    fails [r <= cutoff] and ends the run, and it does not exceed the
    cutoff.  The two intervals returned here have the single index 1
    between them, and no value between them exceeds the cutoff. *)
Lemma find_intervals_nan_between :
  let seq := [1.0; nan; 1.0]%float in
  find_intervals PrimFloat.leb seq 2.0%float 1 = [(0, 0); (2, 2)] /\
  ~ exists k r, 0 < k < 2 /\ seq !! Z.to_nat k = Some r /\
      (2.0 <? r)%float = true.
Proof.
  intros seq. split; [vm_compute; reflexivity|].
  intros (k & r & Hk & Hr & Hgt).
  assert (k = 1) as -> by lia.
  unfold seq in Hr. simpl in Hr. injection Hr as <-.
  vm_compute in Hgt. discriminate.
Qed.

(** C9.  Re-running [find_intervals] with the same cutoff and minimum
    length on the slice [seq[s : e + 1]] of an interval [(s, e)] it
    returned yields the single interval [(0, e - s)]. *)
Theorem find_intervals_slice {A : Type} (leb : A -> A -> bool)
  (seq : list A) (cutoff : A) (min_len_frames : Z) (s e : Z) :
  (s, e) ∈ find_intervals leb seq cutoff min_len_frames ->
  find_intervals leb (Py.slice seq s (e + 1)) cutoff min_len_frames
  = [(0, e - s)].
Proof.
  intros Hin.
  pose proof (find_intervals_run_of _ _ _ _ _ Hin) as Hrun.
  destruct (run_of_slice leb cutoff min_len_frames seq (s, e) Hrun)
    as (Hlen & Hall).
  destruct Hrun as (H0 & H1 & H2 & H3 & _). simpl in *.
  rewrite find_intervals_all_within; try assumption.
  - rewrite Hlen. f_equal. f_equal. lia.
  - intros Hnil. rewrite Hnil in Hlen. unfold Py.len in Hlen. simpl in Hlen. lia.
  - lia.
Qed.

Lemma find_intervals_slice_witness :
  (2, 3) ∈ find_intervals Z.leb [1; 3; 1; 1; 5; 1] 2 2 /\
  find_intervals Z.leb (Py.slice [1; 3; 1; 1; 5; 1] 2 (3 + 1)) 2 2
  = [(0, 3 - 2)].
Proof.
  assert (H : (2, 3) ∈ find_intervals Z.leb [1; 3; 1; 1; 5; 1] 2 2)
    by (vm_compute; constructor).
  split; [exact H|].
  exact (find_intervals_slice Z.leb [1; 3; 1; 1; 5; 1] 2 2 2 3 H).
Defined.

(* ================================================================== *)
(** * The frame reader *)

Lemma float_or_raise_exn `{rt : Runtime} tok e :
  float_or_raise tok = Raise e -> e = ValueError.
Proof. unfold float_or_raise. destruct (float_of_str tok); congruence. Qed.

Lemma traverse_exn {A B} (f : A -> result B) (e0 : exn) l e :
  (forall x e, f x = Raise e -> e = e0) -> traverse f l = Raise e -> e = e0.
Proof.
  intros Hf. induction l as [|x l IH]; simpl; [discriminate|].
  destruct (f x) eqn:Hx; simpl.
  - destruct (traverse f l); simpl; [discriminate|].
    intros [= <-]. auto.
  - intros [= <-]. eauto.
Qed.

(** Whatever an atom line raises is a [ValueError]. *)
Lemma atom_of_line_exn `{rt : Runtime} line e :
  atom_of_line line = Raise e -> e = ValueError.
Proof.
  unfold atom_of_line. destruct (take 4 (str_split line)) as [|el xyz].
  - congruence.
  - destruct (traverse float_or_raise xyz) eqn:Hc; simpl; [discriminate|].
    intros [= <-]. eapply traverse_exn, Hc. apply float_or_raise_exn.
Qed.

(** Fewer lines than atoms to read before the end of the file: the loop
    raises before it yields. *)
Lemma read_atoms_short `{rt : Runtime} next_frames fh : forall n frame,
  (length fh < n)%nat ->
  read_atoms None next_frames n fh frame = Raise ValueError.
Proof.
  induction fh as [|l fh IH]; intros n frame Hlt.
  - destruct n; [lia|reflexivity].
  - destruct n as [|n]; [simpl in Hlt; lia|]. simpl.
    destruct (atom_of_line l) eqn:Hl; simpl.
    + apply IH. simpl in Hlt. lia.
    + f_equal. eapply atom_of_line_exn, Hl.
Qed.

(** [n] good atom lines are read into the frame, which is then yielded. *)
Lemma read_atoms_app `{rt : Runtime} tail next_frames atoms :
  forall n fr rest frame,
  length atoms = n -> traverse atom_of_line atoms = Ok fr ->
  read_atoms tail next_frames n (atoms ++ rest) frame
  = do frames <- next_frames rest; Ok ((frame ++ fr) :: frames).
Proof.
  induction atoms as [|l atoms IH]; intros n fr rest frame Hn Hfr.
  - simpl in Hn. subst n. injection Hfr as <-. rewrite app_nil_r.
    destruct rest; reflexivity.
  - simpl in Hn. subst n. simpl in Hfr.
    apply rbind_Ok in Hfr as (a & Ha & Hfr).
    apply rbind_Ok in Hfr as (fr' & Hfr' & [= <-]).
    simpl. rewrite Ha. simpl.
    rewrite (IH _ fr' rest (frame ++ [a]) eq_refl Hfr').
    rewrite <- app_assoc. reflexivity.
Qed.

(** A file without any atom-count line has no frame. *)
Lemma frames_of_lines_no_count `{rt : Runtime} lines :
  Forall (fun l => str_isdigit (str_strip l) = false) lines ->
  frames_of_lines None lines = Ok [].
Proof.
  induction 1 as [|l lines Hl _ IH]; simpl; [reflexivity|].
  rewrite Hl. exact IH.
Qed.

(** Whole frames are read and reading goes on behind them. *)
Lemma frames_of_lines_whole `{rt : Runtime} tail pre fs rest :
  whole_frames pre fs ->
  frames_of_lines tail (pre ++ rest)
  = do frames <- frames_of_lines tail rest; Ok (fs ++ frames).
Proof.
  induction 1
    as [|l ls fs Hl _ IH|count nat comment atoms fr ls fs Hc Hint Hn Hfr _ IH].
  - simpl. destruct (frames_of_lines tail rest); reflexivity.
  - simpl. rewrite Hl. exact IH.
  - simpl. rewrite Hc, Hint. simpl. rewrite <- app_assoc.
    rewrite (read_atoms_app _ _ _ _ fr _ _ Hn Hfr). rewrite IH.
    destruct (frames_of_lines tail rest); reflexivity.
Qed.

(** An atom count of at least one with fewer lines behind it, before the
    end of the file, than the comment line and the atom lines it
    announces. *)
Lemma frames_of_lines_truncated `{rt : Runtime} count nat rest :
  str_isdigit (str_strip count) = true ->
  int_of_str (str_strip count) = Some nat ->
  0 < nat ->
  (length rest < S (Z.to_nat nat))%nat ->
  frames_of_lines None (count :: rest) = Raise ValueError.
Proof.
  intros Hc Hint Hpos Hshort. simpl. rewrite Hc, Hint. simpl.
  destruct rest as [|comment atoms].
  - destruct (Z.to_nat nat) eqn:Hn; [lia|reflexivity].
  - apply read_atoms_short. simpl in Hshort. lia.
Qed.

(** A line of digits that [int] refuses. *)
Lemma frames_of_lines_refused `{rt : Runtime} tail count rest :
  str_isdigit (str_strip count) = true ->
  int_of_str (str_strip count) = None ->
  frames_of_lines tail (count :: rest) = Raise ValueError.
Proof. intros Hc Hint. simpl. rewrite Hc, Hint. reflexivity. Qed.

(** C7, as the code has it.  The end of the file is the end of the data
    only where the reader looks for an atom count: an empty file and a file
    without any atom-count line give no frame, and a file that ends at a
    frame boundary gives its frames.  A file that ends inside a frame, with
    an atom count of at least one and fewer lines behind it than the
    comment line and the announced atom lines, makes the reader raise
    [ValueError], also when whole frames come before; and so does a line
    of digits that [int] refuses.  The file is one that can be read to
    its end. *)
Theorem frames_from_xyz_end_of_file `{rt : Runtime} (fs : gmap string node)
  (fname : string) (lines : list string) :
  fs !! fname = Some (File lines) ->
  (lines = [] -> frames_from_xyz fs fname = Ok []) /\
  (Forall (fun l => str_isdigit (str_strip l) = false) lines ->
   frames_from_xyz fs fname = Ok []) /\
  (forall frames, whole_frames lines frames ->
   frames_from_xyz fs fname = Ok frames) /\
  (forall pre frames count nat rest,
     lines = pre ++ count :: rest ->
     whole_frames pre frames ->
     str_isdigit (str_strip count) = true ->
     int_of_str (str_strip count) = Some nat ->
     0 < nat ->
     (length rest < S (Z.to_nat nat))%nat ->
     frames_from_xyz fs fname = Raise ValueError) /\
  (forall pre frames count rest,
     lines = pre ++ count :: rest ->
     whole_frames pre frames ->
     str_isdigit (str_strip count) = true ->
     int_of_str (str_strip count) = None ->
     frames_from_xyz fs fname = Raise ValueError).
Proof.
  intros Hfile. unfold frames_from_xyz, open. rewrite Hfile. simpl.
  split; [|split; [|split; [|split]]].
  - intros ->. reflexivity.
  - apply frames_of_lines_no_count.
  - intros frames Hwhole.
    rewrite <- (app_nil_r lines), (frames_of_lines_whole _ _ _ _ Hwhole).
    simpl. rewrite app_nil_r. reflexivity.
  - intros pre frames count nat rest -> Hwhole Hc Hint Hpos Hshort.
    rewrite (frames_of_lines_whole _ _ _ _ Hwhole).
    rewrite (frames_of_lines_truncated _ _ _ Hc Hint Hpos Hshort). reflexivity.
  - intros pre frames count rest -> Hwhole Hc Hint.
    rewrite (frames_of_lines_whole _ _ _ _ Hwhole).
    rewrite (frames_of_lines_refused _ _ _ Hc Hint). reflexivity.
Qed.

Lemma frames_from_xyz_end_of_file_witness :
  let lines := ["1"; "frame 0"; "C 0.0 0.0 0.0"; "2"; "frame 1"; "C 0.0 0.0 0.0"]%string in
  let fs : gmap string node := {[ "trajectory.xyz"%string := File lines ]} in
  fs !! "trajectory.xyz"%string = Some (File lines) /\
  frames_from_xyz fs "trajectory.xyz" = Raise ValueError.
Proof.
  intros lines fs.
  assert (Hfile : fs !! "trajectory.xyz"%string = Some (File lines))
    by (vm_compute; reflexivity).
  split; [exact Hfile|].
  destruct (frames_from_xyz_end_of_file fs "trajectory.xyz" lines Hfile)
    as (_ & _ & _ & Hcut & _).
  apply (Hcut ["1"; "frame 0"; "C 0.0 0.0 0.0"]%string
              [[("C"%string, [0; 0; 0]%float)]]
              "2"%string 2 ["frame 1"; "C 0.0 0.0 0.0"]%string).
  - reflexivity.
  - apply (whole_frame "1" 1 "frame 0" ["C 0.0 0.0 0.0"]%string _ [] []);
      [vm_compute; reflexivity ..|constructor].
  - vm_compute; reflexivity.
  - vm_compute; reflexivity.
  - lia.
  - vm_compute; lia.
Defined.

(** C7, as the claim has it, fails: this file ends after the atom count
    [2], the comment line and one of the two atom lines, and the reader
    raises instead of returning the frames read so far. *)
Lemma frames_from_xyz_mid_frame_raises :
  let fs : gmap string node :=
    {[ "trajectory.xyz"%string :=
         File ["2"; "frame 0"; "C 0.0 0.0 0.0"]%string ]} in
  frames_from_xyz fs "trajectory.xyz" = Raise ValueError /\
  ~ exists frames, frames_from_xyz fs "trajectory.xyz" = Ok frames.
Proof.
  assert (H : frames_from_xyz
                ({[ "trajectory.xyz"%string :=
                      File ["2"; "frame 0"; "C 0.0 0.0 0.0"]%string ]}
                   : gmap string node) "trajectory.xyz"
              = Raise ValueError) by (vm_compute; reflexivity).
  simpl. split; [exact H|]. intros (frames & Hok). congruence.
Qed.

(* ================================================================== *)
(** * The signal reader and the ionization time *)

Lemma ionization_time_at (thr : float) (times : list float) :
  forall (nes : list float) (i : nat) (ne : float),
  length times = length nes ->
  nes !! i = Some ne ->
  (ne <? thr)%float = true ->
  (forall (j : nat) (w : float),
     (j < i)%nat -> nes !! j = Some w -> (w <? thr)%float = false) ->
  exists t, times !! i = Some t /\ ionization_time times nes thr = Some t.
Proof.
  unfold ionization_time.
  induction times as [|t times IH]; intros [|w nes] i ne Hlen Hi Hne Hfirst;
    simpl in Hlen; try discriminate.
  destruct i as [|i]; simpl in *.
  - injection Hi as ->. rewrite Hne. eauto.
  - rewrite (Hfirst 0%nat w) by (lia || reflexivity).
    apply (IH nes i ne); auto.
    intros j w' Hj Hw'. apply (Hfirst (S j)); [lia|exact Hw'].
Qed.

Lemma ionization_time_none (thr : float) (times : list float) :
  forall (nes : list float),
  (forall (i : nat) (ne : float),
     nes !! i = Some ne -> (ne <? thr)%float = false) ->
  ionization_time times nes thr = None.
Proof.
  unfold ionization_time.
  induction times as [|t times IH]; intros [|w nes] Hall; simpl; auto.
  rewrite (Hall 0%nat w) by reflexivity.
  apply IH. intros i ne Hi. apply (Hall (S i)). exact Hi.
Qed.

(** C3.  For sequences of equal length the ionization time is [times[i]]
    for the smallest index [i] at which [nes[i]] is strictly below the
    threshold, whatever the order of the times; it is [None] if no value
    is below the threshold, and so for empty sequences.  The samples
    (0, 10.0), (100, 9.6), (200, 9.4) with the threshold 9.5 give 200. *)
Theorem ionization_time_spec (times nes : list float) (ne_threshold : float) :
  length times = length nes ->
  (forall (i : nat) (ne : float),
     nes !! i = Some ne ->
     (ne <? ne_threshold)%float = true ->
     (forall (j : nat) (w : float),
        (j < i)%nat -> nes !! j = Some w -> (w <? ne_threshold)%float = false) ->
     exists t, times !! i = Some t /\
       ionization_time times nes ne_threshold = Some t) /\
  ((forall (i : nat) (ne : float),
      nes !! i = Some ne -> (ne <? ne_threshold)%float = false) ->
   ionization_time times nes ne_threshold = None) /\
  ionization_time [] [] ne_threshold = None /\
  ionization_time [0; 100; 200]%float [10.0; 9.6; 9.4]%float 9.5%float
  = Some 200%float.
Proof.
  intros Hlen. repeat split.
  - intros i ne. apply ionization_time_at. exact Hlen.
  - apply ionization_time_none.
Qed.

Lemma ionization_time_spec_witness :
  let times := [300; 100; 200]%float in
  let nes := [10.0; 9.4; 9.3]%float in
  length times = length nes /\
  ionization_time times nes 9.5%float = Some 100%float.
Proof.
  intros times nes.
  assert (Hlen : length times = length nes) by reflexivity.
  split; [exact Hlen|].
  destruct (ionization_time_spec times nes 9.5%float Hlen) as (Hat & _).
  destruct (Hat 1%nat 9.4%float) as (t & Ht & Hion).
  - reflexivity.
  - vm_compute; reflexivity.
  - intros j w Hj Hw. assert (j = 0%nat) as -> by lia.
    injection Hw as <-. vm_compute; reflexivity.
  - injection Ht as <-. exact Hion.
Defined.

Lemma omap_float_filter `{rt : Runtime} toks :
  omap float_of_str toks = omap float_of_str (List.filter parses toks).
Proof.
  induction toks as [|tok toks IH]; simpl; [reflexivity|].
  unfold parses at 1. destruct (float_of_str tok) eqn:Htok; simpl.
  - rewrite Htok. f_equal. exact IH.
  - exact IH.
Qed.

Lemma filter_parses_head `{rt : Runtime} tok more toks :
  List.filter parses toks = tok :: more -> exists x, float_of_str tok = Some x.
Proof.
  intros H.
  assert (Hin : In tok (List.filter parses toks)) by (rewrite H; left; reflexivity).
  apply filter_In in Hin as [_ Hp]. unfold parses in Hp.
  destruct (float_of_str tok); [eauto|discriminate].
Qed.

Lemma filter_parses_tail `{rt : Runtime} tok more toks :
  List.filter parses toks = tok :: more ->
  List.filter parses more = more.
Proof.
  intros H.
  assert (Hall : Forall (fun x => parses x = true) (List.filter parses toks)).
  { apply Forall_forall. intros x Hx. apply list_elem_of_In, filter_In in Hx.
    apply Hx. }
  rewrite H in Hall. apply Forall_cons in Hall as [_ Hall].
  clear H. induction Hall as [|x l Hx _ IH]; simpl; [reflexivity|].
  rewrite Hx. f_equal. exact IH.
Qed.

(** A marker line with at least two numeric tokens adds the values of the
    first two of them. *)
Lemma ne_line_sample `{rt : Runtime} line times nes tok_t tok_ne more :
  Py.contains "INFOLINE" line = true ->
  numeric_tokens line = tok_t :: tok_ne :: more ->
  exists t ne, float_of_str tok_t = Some t /\ float_of_str tok_ne = Some ne /\
    ne_line (times, nes) line = (times ++ [t], nes ++ [ne]).
Proof.
  intros Hmark Hnum. unfold numeric_tokens in Hnum.
  destruct (filter_parses_head _ _ _ Hnum) as (t & Ht).
  pose proof (filter_parses_tail _ _ _ Hnum) as Hmore.
  destruct (filter_parses_head tok_ne more (tok_ne :: more) Hmore) as (ne & Hne).
  exists t, ne. repeat split; try assumption.
  unfold ne_line. rewrite Hmark. simpl.
  rewrite omap_float_filter, Hnum. simpl. rewrite Ht, Hne. reflexivity.
Qed.

(** A marker line with fewer than two numeric tokens adds nothing. *)
Lemma ne_line_nothing `{rt : Runtime} line times nes :
  (length (numeric_tokens line) < 2)%nat ->
  ne_line (times, nes) line = (times, nes).
Proof.
  intros Hlen. unfold ne_line.
  destruct (negb (Py.contains "INFOLINE" line)); [reflexivity|].
  rewrite omap_float_filter. fold (numeric_tokens line).
  destruct (numeric_tokens line) as [|tok1 [|tok2 more]]; simpl in *.
  - reflexivity.
  - destruct (float_of_str tok1); reflexivity.
  - lia.
Qed.

Lemma ne_line_length `{rt : Runtime} acc line :
  length acc.1 = length acc.2 ->
  length (ne_line acc line).1 = length (ne_line acc line).2.
Proof.
  destruct acc as [times nes]. unfold ne_line. simpl. intros Hlen.
  destruct (negb _); [exact Hlen|].
  destruct (omap _ _) as [|t [|ne more]]; simpl; try exact Hlen.
  rewrite !length_app. simpl. lia.
Qed.

Lemma fold_ne_line_length `{rt : Runtime} f : forall acc,
  length acc.1 = length acc.2 ->
  length (fold_left ne_line f acc).1 = length (fold_left ne_line f acc).2.
Proof.
  induction f as [|line f IH]; intros acc Hlen; simpl; [exact Hlen|].
  apply IH, ne_line_length, Hlen.
Qed.

Lemma ne_lines_snoc `{rt : Runtime} f line :
  ne_lines (f ++ [line]) = ne_line (ne_lines f) line.
Proof. unfold ne_lines. rewrite fold_left_app. reflexivity. Qed.

(** C6.  The two lists read from a signal file have equal length and grow
    line by line in file order.  A line that contains the marker is split
    into its tokens; the tokens that parse as floats are kept in their
    order, the first is the time and the second the value, further ones
    are ignored, and a line with fewer than two of them adds nothing; so
    does a line without the marker.  This holds with whatever [split] and
    [float] of the interpreter return.  The example line of the script,
    which is ASCII text, gives one sample: its time is the double 399.999,
    its value is the double next to the second token,
    9.4880000371352313, which is 9.488 to seven decimal places, and the
    third number is ignored. *)
Theorem load_ne_sequence_spec `{rt : Runtime} :
  (forall (fs : gmap string node) (monitor_path : string) (f : list string),
     fs !! monitor_path = Some (File f) ->
     load_ne_sequence fs monitor_path = Ok (ne_lines f) /\
     length (ne_lines f).1 = length (ne_lines f).2) /\
  ne_lines [] = ([], []) /\
  (forall f line, ne_lines (f ++ [line]) = ne_line (ne_lines f) line) /\
  (forall line times nes tok_t tok_ne more,
     Py.contains "INFOLINE" line = true ->
     numeric_tokens line = tok_t :: tok_ne :: more ->
     exists t ne, float_of_str tok_t = Some t /\ float_of_str tok_ne = Some ne /\
       ne_line (times, nes) line = (times ++ [t], nes ++ [ne])) /\
  (forall line times nes,
     Py.contains "INFOLINE" line = true ->
     (length (numeric_tokens line) < 2)%nat ->
     ne_line (times, nes) line = (times, nes)) /\
  (forall line times nes,
     Py.contains "INFOLINE" line = false ->
     ne_line (times, nes) line = (times, nes)) /\
  Py.contains "INFOLINE" INFOLINE_example = true /\
  @numeric_tokens ascii_runtime INFOLINE_example
  = ["3.9999900000000002E+002"; "9.4880000371352313E+000"; "-5.97E+002"]%string /\
  (exists t v : float,
     @ne_lines ascii_runtime [INFOLINE_example] = ([t], [v]) /\
     t = 399.999%float /\
     v = 9.4880000371352313%float /\
     (abs (v - 9.488) <? 1e-7)%float = true).
Proof.
  split; [|split; [|split; [|split; [|split; [|split; [|split; [|split]]]]]]].
  - intros fs monitor_path f Hfile. split.
    + unfold load_ne_sequence, open. rewrite Hfile. reflexivity.
    + apply fold_ne_line_length. reflexivity.
  - reflexivity.
  - apply ne_lines_snoc.
  - intros line times nes tok_t tok_ne more. apply ne_line_sample.
  - intros line times nes _. apply ne_line_nothing.
  - intros line times nes Hmark. unfold ne_line. rewrite Hmark. reflexivity.
  - vm_compute. reflexivity.
  - vm_compute. reflexivity.
  - exists 399.999%float, 9.4880000371352313%float.
    split; [vm_compute; reflexivity|].
    split; [reflexivity|]. split; [reflexivity|]. vm_compute. reflexivity.
Qed.




(* ================================================================== *)
(** * One trajectory *)

Lemma lookup_map {A B} (f : A -> B) (l : list A) (i : nat) :
  map f l !! i = f <$> l !! i.
Proof.
  revert i. induction l as [|x l IH]; intros [|i]; simpl; auto.
Qed.

Lemma elem_of_enumerate_from {A} (l : list A) : forall (k i : Z) (x : A),
  (i, x) ∈ Py.enumerate_from k l <-> k <= i /\ l !! Z.to_nat (i - k) = Some x.
Proof.
  induction l as [|y l IH]; intros k i x; simpl.
  - split; [intros H; apply elem_of_nil in H; contradiction|].
    intros [_ H]. discriminate.
  - rewrite elem_of_cons, IH. split.
    + intros [[= -> ->]|[Hk Hx]].
      * split; [lia|]. rewrite Z.sub_diag. reflexivity.
      * split; [lia|].
        replace (Z.to_nat (i - k)) with (S (Z.to_nat (i - (k + 1)))) by lia.
        exact Hx.
    + intros [Hk Hx]. destruct (decide (i = k)) as [->|Hne].
      * left. rewrite Z.sub_diag in Hx. simpl in Hx. congruence.
      * right. split; [lia|].
        replace (Z.to_nat (i - k)) with (S (Z.to_nat (i - (k + 1)))) in Hx by lia.
        exact Hx.
Qed.

(** The indices listed for a symbol are those of the labels that match it
    once in upper case. *)
Lemma elem_of_indices_of symbol elems i :
  i ∈ indices_of symbol elems <->
  0 <= i /\ exists el, elems !! Z.to_nat i = Some el /\ Py.upper el = symbol.
Proof.
  unfold indices_of, Py.enumerate. rewrite list_elem_of_In, in_map_iff. split.
  - intros ([i' el] & <- & Hin). simpl.
    apply filter_In in Hin as [Hin Hel]. simpl in Hel.
    apply list_elem_of_In, elem_of_enumerate_from in Hin as [Hi Hl].
    rewrite Z.sub_0_r in Hl. apply String.eqb_eq in Hel. eauto.
  - intros (Hi & el & Hl & Hel). exists (i, el). split; [reflexivity|].
    apply filter_In. split.
    + apply list_elem_of_In, elem_of_enumerate_from.
      rewrite Z.sub_0_r. auto.
    + simpl. apply String.eqb_eq. exact Hel.
Qed.

Lemma elem_of_indices_of_labelled symbol (f0 : frame) i :
  i ∈ indices_of symbol (map fst f0) <-> labelled symbol f0 i.
Proof.
  rewrite elem_of_indices_of. unfold labelled. split.
  - intros (Hi & el & Hl & Hel). split; [exact Hi|].
    rewrite lookup_map in Hl.
    apply fmap_Some in Hl as ([el' xyz] & Hf0 & ->). eauto.
  - intros (Hi & el & xyz & Hl & Hel). split; [exact Hi|].
    exists el. rewrite lookup_map. unfold frame, atom in *. rewrite Hl. auto.
Qed.

(** ** A loop that may raise, by invariant *)

Lemma for_each_inv {A S} (body : S -> A -> result S) (P : list A -> S -> Prop)
  (l : list A) (acc acc' : S) :
  P [] acc ->
  (forall done x s s', P done s -> body s x = Ok s' -> P (done ++ [x]) s') ->
  for_each body l acc = Ok acc' ->
  P l acc'.
Proof.
  intros Hinit Hstep.
  enough (H : forall done s, P done s -> for_each body l s = Ok acc' ->
                             P (done ++ l) acc')
    by (apply (H [] acc Hinit)).
  induction l as [|x l IH]; intros done s HP Hrun; simpl in Hrun.
  - injection Hrun as <-. rewrite app_nil_r. exact HP.
  - apply rbind_Ok in Hrun as (s' & Hbody & Hrun).
    replace (done ++ x :: l) with ((done ++ [x]) ++ l)
      by (rewrite <- app_assoc; reflexivity).
    eapply IH; eauto.
Qed.


(** ** The loop over the pairs *)

Section PairLoop.

Context `{rt : Runtime} (frames : list frame) (times_geom_fs : list float)
  (r_cut : float) (min_len_frames : Z).

Local Abbreviation entry := (pair_entry frames times_geom_fs r_cut min_len_frames).
Local Abbreviation good := (qualifies frames r_cut min_len_frames).
Local Abbreviation loop_inv := (loop_inv frames times_geom_fs r_cut min_len_frames).

Lemma pair_entry_qualifies ci hi v : entry ci hi v -> good ci hi.
Proof. intros (seq & Hseq & Hne & _). exists seq. auto. Qed.

Lemma pair_entry_nonempty ci hi v : entry ci hi v -> v <> [].
Proof.
  intros (seq & _ & Hne & Hv) ->. apply traverse_Ok_nil in Hv. contradiction.
Qed.

Lemma pair_entry_unique ci hi v v' : entry ci hi v -> entry ci hi v' -> v = v'.
Proof.
  intros (seq & Hseq & _ & Hv) (seq' & Hseq' & _ & Hv').
  assert (seq' = seq) as -> by congruence. congruence.
Qed.

(** One pair: nothing changes if its series has no interval, otherwise its
    entry is written. *)
Lemma pair_step_Ok ci acc hi acc' :
  pair_step frames times_geom_fs r_cut min_len_frames ci acc hi = Ok acc' ->
  (~ good ci hi /\ acc' = acc) \/
  (exists v, entry ci hi v /\ acc' = <[(ci, hi) := v]> acc).
Proof.
  unfold pair_step. intros H. apply rbind_Ok in H as (seq & Hseq & H).
  destruct (find_intervals PrimFloat.leb seq r_cut min_len_frames)
    as [|se raw] eqn:Hraw.
  - left. injection H as <-. split; [|reflexivity].
    intros (seq' & Hseq' & Hne). assert (seq' = seq) as -> by congruence.
    contradiction.
  - right. apply rbind_Ok in H as (v & Hv & [= <-]).
    exists v. split; [|reflexivity].
    exists seq. rewrite Hraw. repeat split; auto.
Qed.

Lemma loop_inv_weaken acc0 (visited visited' : Z * Z -> Prop) m :
  (forall k, visited k <-> visited' k) ->
  loop_inv acc0 visited m -> loop_inv acc0 visited' m.
Proof.
  intros Heq [H1 H2]. split.
  - intros ci hi v Hv. destruct (H1 ci hi v Hv) as [|[Hvis He]]; auto.
    right. split; [apply Heq|]; auto.
  - intros ci hi [H|[Hvis Hg]]; apply H2; auto.
    right. split; [apply Heq|]; auto.
Qed.

Lemma hydrogen_loop_inv ci h_idx acc acc' :
  for_each (pair_step frames times_geom_fs r_cut min_len_frames ci) h_idx acc
  = Ok acc' ->
  loop_inv acc (fun k => k.1 = ci /\ k.2 ∈ h_idx) acc'.
Proof.
  apply (for_each_inv _
           (fun done m => loop_inv acc (fun k => k.1 = ci /\ k.2 ∈ done) m)).
  - split; [auto|]. intros c h [H|[[_ Hin] _]]; [exact H|].
    apply elem_of_nil in Hin. contradiction.
  - intros done hi m m' [H1 H2] Hstep.
    apply pair_step_Ok in Hstep as [[Hbad ->]|(v & Hentry & ->)].
    + split.
      * intros c h v Hv. destruct (H1 c h v Hv) as [|[[Hc Hh] He]]; auto.
        right. split; [|exact He]. simpl in *. split; [exact Hc|].
        apply elem_of_app. auto.
      * intros c h [H|[[Hc Hh] Hg]]; [apply H2; auto|]. simpl in *.
        apply elem_of_app in Hh as [Hh|Hh].
        -- apply H2. right. auto.
        -- apply list_elem_of_singleton in Hh. subst. contradiction.
    + split.
      * intros c h v' Hv'. apply lookup_insert_Some in Hv' as [[[= <- <-] <-]|[Hne Hv']].
        -- right. split; [|exact Hentry]. simpl. split; [reflexivity|].
           apply elem_of_app. right. apply list_elem_of_singleton. reflexivity.
        -- destruct (H1 c h v' Hv') as [|[[Hc Hh] He]]; auto.
           right. split; [|exact He]. simpl in *. split; [exact Hc|].
           apply elem_of_app. auto.
      * intros c h Hcase. apply lookup_insert_is_Some.
        destruct (decide ((ci, hi) = (c, h))) as [|Hne]; [auto|right].
        split; [exact Hne|].
        destruct Hcase as [H|[[Hc Hh] Hg]]; [apply H2; auto|]. simpl in *.
        apply elem_of_app in Hh as [Hh|Hh].
        -- apply H2. right. auto.
        -- apply list_elem_of_singleton in Hh. subst. contradiction.
Qed.

Lemma carbon_loop_inv h_idx c_idx acc acc' :
  for_each (carbon_step frames times_geom_fs r_cut min_len_frames h_idx)
    c_idx acc = Ok acc' ->
  loop_inv acc (fun k => k.1 ∈ c_idx /\ k.2 ∈ h_idx) acc'.
Proof.
  apply (for_each_inv _
           (fun done m => loop_inv acc (fun k => k.1 ∈ done /\ k.2 ∈ h_idx) m)).
  - split; [auto|]. intros c h [H|[[Hin _] _]]; [exact H|].
    apply elem_of_nil in Hin. contradiction.
  - intros done ci m m' [H1 H2] Hstep.
    apply hydrogen_loop_inv in Hstep as [G1 G2]. split.
    + intros c h v Hv. destruct (G1 c h v Hv) as [Hm|[[Hc Hh] He]].
      * destruct (H1 c h v Hm) as [|[[Hc Hh] He]]; auto.
        right. split; [|exact He]. simpl in *. split; [|exact Hh].
        apply elem_of_app. auto.
      * right. split; [|exact He]. simpl in *. split; [|exact Hh].
        apply elem_of_app. right. apply list_elem_of_singleton. exact Hc.
    + intros c h [H|[[Hc Hh] Hg]]; apply G2.
      * left. apply H2. auto.
      * simpl in *. apply elem_of_app in Hc as [Hc|Hc].
        -- left. apply H2. right. auto.
        -- apply list_elem_of_singleton in Hc. right. auto.
Qed.

End PairLoop.

(** C10.  For a trajectory without frames the report has no pair, the
    ionization time [None] and the frame count 0, whatever signal path is
    given and whatever the signal file contains: it is not read. *)
Theorem empty_trajectory_report `{rt : Runtime} (fs : gmap string node) (traj_path : string)
  (monitor_path : option string) (r_cut : float) (min_len_frames : Z)
  (ne_threshold traj_dt_fs : float) :
  frames_from_xyz fs traj_path = Ok [] ->
  ch_intervals_for_traj fs traj_path monitor_path
    r_cut min_len_frames ne_threshold traj_dt_fs
  = Ok (Report ∅ None 0).
Proof.
  intros Hframes. unfold ch_intervals_for_traj. rewrite Hframes. reflexivity.
Qed.

Lemma empty_trajectory_report_witness :
  let fs : gmap string node :=
    {[ "td1/trajectory.xyz"%string := File ["no frames here"]%string;
       "td1/monitor.out"%string :=
         File ["INFOLINE: 0 10.0"; "INFOLINE: 100 9.6"; "INFOLINE: 200 9.4"]%string ]} in
  frames_from_xyz fs "td1/trajectory.xyz" = Ok [] /\
  is_file fs "td1/monitor.out" = true /\
  read_t_ion fs (Some "td1/monitor.out"%string) NE_THRESHOLD = Ok (Some 200%float) /\
  ch_intervals_for_traj fs "td1/trajectory.xyz" (Some "td1/monitor.out"%string)
    R_CUTOFF MIN_LEN_FRAMES NE_THRESHOLD TRAJ_DT_FS
  = Ok (Report ∅ None 0).
Proof.
  intros fs.
  assert (Hframes : frames_from_xyz fs "td1/trajectory.xyz" = Ok [])
    by (vm_compute; reflexivity).
  split; [exact Hframes|].
  split; [vm_compute; reflexivity|]. split; [vm_compute; reflexivity|].
  exact (empty_trajectory_report fs "td1/trajectory.xyz"
           (Some "td1/monitor.out"%string)
           R_CUTOFF MIN_LEN_FRAMES NE_THRESHOLD TRAJ_DT_FS Hframes).
Defined.

(** ** The report *)

Lemma getitem_nonneg {A} (l : list A) (i : Z) (x : A) :
  0 <= i -> Py.getitem l i = Ok x <-> l !! Z.to_nat i = Some x.
Proof.
  intros Hi. unfold Py.getitem.
  replace (i <? 0) with false by (symmetry; apply Z.ltb_ge; lia).
  cbv iota zeta.
  replace (i <? 0) with false by (symmetry; apply Z.ltb_ge; lia).
  destruct (l !! Z.to_nat i); split; congruence.
Qed.

Lemma getitem_map_range {B} (f : Z -> B) (n i : Z) (y : B) :
  0 <= i -> Py.getitem (map f (Py.range n)) i = Ok y -> y = f i.
Proof.
  intros Hi H. apply getitem_nonneg in H; [|exact Hi].
  rewrite lookup_map in H. apply fmap_Some in H as (j & Hj & ->).
  unfold Py.range in Hj. apply lookup_seqZ in Hj as [-> _]. f_equal. lia.
Qed.

Lemma getitem_map_range_Ok {B} (f : Z -> B) (n i : Z) :
  0 <= i < n -> Py.getitem (map f (Py.range n)) i = Ok (f i).
Proof.
  intros Hi. apply getitem_nonneg; [lia|].
  rewrite lookup_map. unfold Py.range. rewrite lookup_seqZ_lt by lia.
  simpl. do 2 f_equal. lia.
Qed.

Lemma traverse_Ok_elem {A B} (f : A -> result B) l ys y :
  traverse f l = Ok ys -> y ∈ ys -> exists x, x ∈ l /\ f x = Ok y.
Proof.
  revert ys. induction l as [|x l IH]; simpl; intros ys H Hy.
  - injection H as <-. apply elem_of_nil in Hy. contradiction.
  - apply rbind_Ok in H as (y0 & Hy0 & H).
    apply rbind_Ok in H as (ys' & Hys' & [= <-]).
    apply elem_of_cons in Hy as [->|Hy].
    + exists x. split; [left|exact Hy0].
    + destruct (IH ys' Hys' Hy) as (x' & Hx' & Hfx'). exists x'. split; [right|]; auto.
Qed.


(** The times attached to an interval are those of its two frames. *)
Lemma enrich_times dt n s e y :
  0 <= s -> 0 <= e ->
  enrich (map (frame_time dt) (Py.range n)) (s, e) = Ok y ->
  y = (s, e, frame_time dt s, frame_time dt e,
       (frame_time dt e - frame_time dt s)%float).
Proof.
  intros Hs He H. unfold enrich in H.
  apply rbind_Ok in H as (ts & Hts & H).
  apply rbind_Ok in H as (te & Hte & [= <-]).
  apply getitem_map_range in Hts, Hte; try assumption. subst. reflexivity.
Qed.

Lemma pair_entry_times `{rt : Runtime} frames dt r_cut min_len_frames ci hi v s e ts te d :
  pair_entry frames (map (frame_time dt) (Py.range (Py.len frames)))
    r_cut min_len_frames ci hi v ->
  (s, e, ts, te, d) ∈ v ->
  ts = frame_time dt s /\ te = frame_time dt e /\ d = (te - ts)%float.
Proof.
  intros (seq & _ & _ & Hv) Hin.
  destruct (traverse_Ok_elem _ _ _ _ Hv Hin) as ([s' e'] & Hraw & Henrich).
  apply find_intervals_run_of in Hraw as (Hs & Hle & _). simpl in *.
  apply enrich_times in Henrich; [|lia..].
  injection Henrich as -> -> -> -> ->. auto.
Qed.

(** What a call that returns for a trajectory with a first frame has put
    into the report. *)
Lemma report_of_frames `{rt : Runtime} fs traj_path monitor_path r_cut min_len_frames
  ne_threshold traj_dt_fs frames f0 rep :
  frames_from_xyz fs traj_path = Ok frames ->
  frames !! 0%nat = Some f0 ->
  ch_intervals_for_traj fs traj_path monitor_path
    r_cut min_len_frames ne_threshold traj_dt_fs = Ok rep ->
  n_frames rep = Py.len frames /\
  read_t_ion fs monitor_path ne_threshold = Ok (t_ion_fs rep) /\
  loop_inv frames (map (frame_time traj_dt_fs) (Py.range (Py.len frames)))
    r_cut min_len_frames ∅
    (fun k => labelled "C" f0 k.1 /\ labelled "H" f0 k.2)
    (pair_intervals rep).
Proof.
  intros Hframes Hf0 Hrun. unfold ch_intervals_for_traj in Hrun.
  rewrite Hframes in Hrun. simpl in Hrun.
  destruct (Py.len frames =? 0) eqn:Hlen.
  { apply Z.eqb_eq in Hlen. destruct frames; [discriminate|].
    unfold Py.len in Hlen. simpl in Hlen. lia. }
  apply rbind_Ok in Hrun as (t_ion & Hion & Hrun).
  assert (Hget : Py.getitem frames 0 = Ok f0)
    by (apply getitem_nonneg; [lia|exact Hf0]).
  rewrite Hget in Hrun. simpl in Hrun.
  set (c_idx := indices_of "C" (map fst f0)) in *.
  set (h_idx := indices_of "H" (map fst f0)) in *.
  destruct (Py.not_ c_idx || Py.not_ h_idx) eqn:Hnone.
  - injection Hrun as <-. simpl.
    split; [reflexivity|]. split; [exact Hion|]. split.
    + intros ci hi v Hv. rewrite lookup_empty in Hv. discriminate.
    + intros ci hi [H|[[Hc Hh] _]].
      * rewrite lookup_empty in H. destruct H; discriminate.
      * simpl in *. apply elem_of_indices_of_labelled in Hc, Hh.
        fold c_idx in Hc. fold h_idx in Hh.
        destruct c_idx; [apply elem_of_nil in Hc; contradiction|].
        destruct h_idx; [apply elem_of_nil in Hh; contradiction|].
        discriminate.
  - apply rbind_Ok in Hrun as (pi & Hloop & [= <-]). simpl.
    split; [reflexivity|]. split; [exact Hion|]. split.
    + intros ci hi v Hv.
      apply carbon_loop_inv in Hloop as [H1 _].
      destruct (H1 ci hi v Hv) as [|[[Hc Hh] He]]; auto.
      right. split; [|exact He]. simpl in *.
      split; apply elem_of_indices_of_labelled; assumption.
    + intros ci hi Hcase. apply carbon_loop_inv in Hloop as [_ H2].
      apply H2. destruct Hcase as [|[[Hc Hh] Hg]]; auto.
      right. split; [|exact Hg]. simpl in *.
      split; apply elem_of_indices_of_labelled; assumption.
Qed.

(** The label match ignores the case: only [C] and [c] are carbon, only
    [H] and [h] hydrogen. *)
Lemma upper_one_char (u : ascii) (el : string) :
  Py.upper el = String u EmptyString ->
  exists c, el = String c EmptyString /\ Py.upper_char c = u.
Proof.
  destruct el as [|c [|c2 el]]; unfold Py.upper; simpl; try discriminate.
  intros [= H]. eauto.
Qed.

Lemma upper_C el : Py.upper el = "C"%string <-> el = "C"%string \/ el = "c"%string.
Proof.
  split.
  - intros H. apply upper_one_char in H as (c & -> & Hc).
    destruct c as [[] [] [] [] [] [] [] []]; vm_compute in Hc;
      try discriminate Hc; auto.
  - intros [->| ->]; reflexivity.
Qed.

Lemma upper_H el : Py.upper el = "H"%string <-> el = "H"%string \/ el = "h"%string.
Proof.
  split.
  - intros H. apply upper_one_char in H as (c & -> & Hc).
    destruct c as [[] [] [] [] [] [] [] []]; vm_compute in Hc;
      try discriminate Hc; auto.
  - intros [->| ->]; reflexivity.
Qed.

(** With a monitor file the ionization time of the report is that of the
    series read from it. *)
Lemma read_t_ion_file `{rt : Runtime} fs monitor_path f ne_threshold :
  fs !! monitor_path = Some (File f) ->
  read_t_ion fs (Some monitor_path) ne_threshold
  = Ok (ionization_time (ne_lines f).1 (ne_lines f).2 ne_threshold).
Proof.
  intros Hfile. unfold read_t_ion, is_file, load_ne_sequence, open.
  rewrite Hfile. simpl. destruct (ne_lines f). reflexivity.
Qed.

(** What the monitor path does to the call: the series of a file that
    can be read gives the ionization time, a broken file raises, and
    anything else is passed over. *)
Lemma read_t_ion_cases `{rt : Runtime} fs monitor_path ne_threshold :
  read_t_ion fs monitor_path ne_threshold
  = match monitor_path with
    | None => Ok None
    | Some p =>
        match fs !! p with
        | Some (File f) =>
            Ok (ionization_time (ne_lines f).1 (ne_lines f).2 ne_threshold)
        | Some (Broken _ e) => Raise e
        | _ => Ok None
        end
    end.
Proof.
  unfold read_t_ion. destruct monitor_path as [p|]; [|reflexivity].
  unfold is_file, load_ne_sequence, open.
  destruct (fs !! p) as [[f|f e|]|]; simpl; try reflexivity.
  destruct (ne_lines f). reflexivity.
Qed.





(** C5.  For a trajectory with at least one frame, the pair [(ci, hi)] is
    a key of the mapping of the report if and only if the first frame
    labels atom [ci] as carbon and atom [hi] as hydrogen, in either case,
    and the distance series of the pair has at least one interval.  So the
    mapping is empty when the first frame has no carbon or no hydrogen,
    and no pair is mapped to the empty list. *)
Theorem pair_intervals_keys `{rt : Runtime} (fs : gmap string node) (traj_path : string)
  (monitor_path : option string) (r_cut : float) (min_len_frames : Z)
  (ne_threshold traj_dt_fs : float)
  (frames : list frame) (f0 : frame) (rep : report) :
  frames_from_xyz fs traj_path = Ok frames ->
  frames !! 0%nat = Some f0 ->
  ch_intervals_for_traj fs traj_path monitor_path
    r_cut min_len_frames ne_threshold traj_dt_fs = Ok rep ->
  (forall ci hi,
     is_Some (pair_intervals rep !! (ci, hi)) <->
     labelled "C" f0 ci /\ labelled "H" f0 hi /\
     qualifies frames r_cut min_len_frames ci hi) /\
  ((forall i, ~ labelled "C" f0 i) \/ (forall i, ~ labelled "H" f0 i) ->
   pair_intervals rep = ∅) /\
  (forall ci hi, pair_intervals rep !! (ci, hi) <> Some []) /\
  (forall el, Py.upper el = "C"%string <-> el = "C"%string \/ el = "c"%string) /\
  (forall el, Py.upper el = "H"%string <-> el = "H"%string \/ el = "h"%string).
Proof.
  intros Hframes Hf0 Hrun.
  destruct (report_of_frames _ _ _ _ _ _ _ _ _ _ Hframes Hf0 Hrun)
    as (_ & _ & Hentries & Hkeys).
  assert (Hentry : forall ci hi v, pair_intervals rep !! (ci, hi) = Some v ->
            (labelled "C" f0 ci /\ labelled "H" f0 hi) /\
            pair_entry frames
              (map (frame_time traj_dt_fs) (Py.range (Py.len frames)))
              r_cut min_len_frames ci hi v).
  { intros ci hi v Hv. destruct (Hentries ci hi v Hv) as [Hempty|H]; [|exact H].
    rewrite lookup_empty in Hempty. discriminate. }
  split; [|split; [|split; [|split]]].
  - intros ci hi. split.
    + intros [v Hv]. destruct (Hentry ci hi v Hv) as ([Hc Hh] & He).
      split; [exact Hc|]. split; [exact Hh|]. eapply pair_entry_qualifies, He.
    + intros (Hc & Hh & Hq). apply Hkeys. right. auto.
  - intros Habsent. apply map_empty. intros [ci hi].
    destruct (pair_intervals rep !! (ci, hi)) as [v|] eqn:Hv; [|reflexivity].
    destruct (Hentry ci hi v Hv) as ([Hc Hh] & _).
    destruct Habsent as [Hno|Hno]; exfalso; eapply Hno; eauto.
  - intros ci hi Hv. destruct (Hentry ci hi [] Hv) as (_ & He).
    eapply pair_entry_nonempty; [exact He|reflexivity].
  - apply upper_C.
  - apply upper_H.
Qed.

Lemma pair_intervals_keys_witness :
  let f0 : frame := [("C", [0; 0; 0]); ("H", [1.0; 0; 0]);
                     ("h", [5; 0; 0]); ("O", [0; 1; 0])]%float%string in
  let rep := Report {[ (0, 1) := [(0, 1, 0%float, 0.5%float, 0.5%float)] ]} None 2 in
  frames_from_xyz example_fs_far "td2/trajectory.xyz" = Ok example_frames_far /\
  example_frames_far !! 0%nat = Some f0 /\
  ch_intervals_for_traj example_fs_far "td2/trajectory.xyz" None
    R_CUTOFF MIN_LEN_FRAMES NE_THRESHOLD TRAJ_DT_FS = Ok rep /\
  (is_Some (pair_intervals rep !! (0, 1)) <->
   labelled "C" f0 0 /\ labelled "H" f0 1 /\
   qualifies example_frames_far R_CUTOFF MIN_LEN_FRAMES 0 1) /\
  (is_Some (pair_intervals rep !! (0, 2)) <->
   labelled "C" f0 0 /\ labelled "H" f0 2 /\
   qualifies example_frames_far R_CUTOFF MIN_LEN_FRAMES 0 2).
Proof.
  intros f0 rep.
  assert (Hframes : frames_from_xyz example_fs_far "td2/trajectory.xyz"
                    = Ok example_frames_far) by (vm_compute; reflexivity).
  assert (Hf0 : example_frames_far !! 0%nat = Some f0) by reflexivity.
  assert (Hrun : ch_intervals_for_traj example_fs_far "td2/trajectory.xyz" None
                   R_CUTOFF MIN_LEN_FRAMES NE_THRESHOLD TRAJ_DT_FS = Ok rep)
    by (vm_compute; reflexivity).
  split; [exact Hframes|]. split; [exact Hf0|]. split; [exact Hrun|].
  destruct (pair_intervals_keys example_fs_far "td2/trajectory.xyz" None
              R_CUTOFF MIN_LEN_FRAMES NE_THRESHOLD TRAJ_DT_FS
              example_frames_far f0 rep Hframes Hf0 Hrun) as (Hkeys & _).
  split; apply Hkeys.
Defined.

(** C2.  Whatever the trajectory, if the distance series of a carbon and a
    hydrogen of its first frame is [1.8, 1.9, 2.1, 1.7, 1.6], then with the
    cutoff 2.0, the minimum length 1 and the time step 0.5 the report has
    for this pair exactly the intervals (0, 1) and (3, 4), with the times
    0.0 to 0.5 and 1.5 to 2.0 and the duration 0.5 each; and every interval
    of the report carries the times of its first and last frame, index
    times step, and their difference as its duration. *)
Theorem distance_example_report `{rt : Runtime} (fs : gmap string node) (traj_path : string)
  (monitor_path : option string) (ne_threshold : float)
  (frames : list frame) (f0 : frame) (ci hi : Z) (rep : report) :
  frames_from_xyz fs traj_path = Ok frames ->
  frames !! 0%nat = Some f0 ->
  labelled "C" f0 ci ->
  labelled "H" f0 hi ->
  distance_series frames ci hi = Ok [1.8; 1.9; 2.1; 1.7; 1.6]%float ->
  ch_intervals_for_traj fs traj_path monitor_path
    2.0%float 1 ne_threshold 0.5%float = Ok rep ->
  pair_intervals rep !! (ci, hi)
  = Some [(0, 1, 0.0%float, 0.5%float, 0.5%float);
          (3, 4, 1.5%float, 2.0%float, 0.5%float)] /\
  (forall c h v s e t_start t_end duration,
     pair_intervals rep !! (c, h) = Some v ->
     (s, e, t_start, t_end, duration) ∈ v ->
     t_start = (Py.float_of_int s * 0.5)%float /\
     t_end = (Py.float_of_int e * 0.5)%float /\
     duration = (t_end - t_start)%float).
Proof.
  intros Hframes Hf0 Hc Hh Hseq Hrun.
  destruct (report_of_frames _ _ _ _ _ _ _ _ _ _ Hframes Hf0 Hrun)
    as (_ & _ & Hentries & Hkeys).
  assert (Hentry : forall c h v, pair_intervals rep !! (c, h) = Some v ->
            pair_entry frames (map (frame_time 0.5) (Py.range (Py.len frames)))
              2.0%float 1 c h v).
  { intros c h v Hv. destruct (Hentries c h v Hv) as [Hempty|[_ H]]; [|exact H].
    rewrite lookup_empty in Hempty. discriminate. }
  split.
  - destruct (Hkeys ci hi) as (v & Hv).
    { right. split; [split; assumption|]. eexists. split; [exact Hseq|].
      vm_compute. discriminate. }
    destruct (Hentry ci hi v Hv) as (seq & Hseq' & _ & Henriched).
    assert (seq = [1.8; 1.9; 2.1; 1.7; 1.6]%float) as -> by congruence.
    apply traverse_Ok_length in Hseq. simpl in Hseq.
    assert (Hlen : Py.len frames = 5) by (unfold Py.len; lia).
    rewrite Hlen in Henriched. vm_compute in Henriched.
    injection Henriched as <-. exact Hv.
  - intros c h v s e t_start t_end duration Hv Hin.
    eapply pair_entry_times; [apply (Hentry c h v Hv)|exact Hin].
Qed.

Lemma distance_example_report_witness :
  let f0 : frame := [("C", [0; 0; 0]); ("H", [1.8; 0; 0])]%float%string in
  let rep :=
    Report {[ (0, 1) := [(0, 1, 0.0%float, 0.5%float, 0.5%float);
          (3, 4, 1.5%float, 2.0%float, 0.5%float)] ]}
      (Some 200%float) 5 in
  frames_from_xyz example_fs "td1/trajectory.xyz" = Ok example_frames /\
  example_frames !! 0%nat = Some f0 /\
  labelled "C" f0 0 /\
  labelled "H" f0 1 /\
  distance_series example_frames 0 1 = Ok [1.8; 1.9; 2.1; 1.7; 1.6]%float /\
  ch_intervals_for_traj example_fs "td1/trajectory.xyz"
    (Some "td1/monitor.out"%string) 2.0%float 1 NE_THRESHOLD 0.5%float = Ok rep /\
  pair_intervals rep !! (0, 1)
  = Some [(0, 1, 0.0%float, 0.5%float, 0.5%float);
          (3, 4, 1.5%float, 2.0%float, 0.5%float)].
Proof.
  intros f0 rep.
  assert (Hframes : frames_from_xyz example_fs "td1/trajectory.xyz"
                    = Ok example_frames) by (vm_compute; reflexivity).
  assert (Hf0 : example_frames !! 0%nat = Some f0) by reflexivity.
  assert (Hc : labelled "C" f0 0).
  { split; [lia|]. exists "C"%string, [0; 0; 0]%float. split; reflexivity. }
  assert (Hh : labelled "H" f0 1).
  { split; [lia|]. exists "H"%string, [1.8; 0; 0]%float. split; reflexivity. }
  assert (Hseq : distance_series example_frames 0 1
                 = Ok [1.8; 1.9; 2.1; 1.7; 1.6]%float)
    by (vm_compute; reflexivity).
  assert (Hrun : ch_intervals_for_traj example_fs "td1/trajectory.xyz"
                   (Some "td1/monitor.out"%string) 2.0%float 1
                   NE_THRESHOLD 0.5%float = Ok rep)
    by (vm_compute; reflexivity).
  split; [exact Hframes|]. split; [exact Hf0|]. split; [exact Hc|].
  split; [exact Hh|]. split; [exact Hseq|]. split; [exact Hrun|].
  exact (proj1 (distance_example_report example_fs "td1/trajectory.xyz"
                  (Some "td1/monitor.out"%string) NE_THRESHOLD
                  example_frames f0 0 1 rep Hframes Hf0 Hc Hh Hseq Hrun)).
Defined.

(* ================================================================== *)
(** * More on the interval segmenter *)

Section RunFacts.

Context {A : Type} (leb : A -> A -> bool) (cutoff : A) (min_len : Z).

Local Abbreviation within := (within leb cutoff).
Local Abbreviation beyond := (beyond leb cutoff).
Local Abbreviation run_inv := (run_inv leb cutoff min_len).

Lemma within_not_beyond (seq : list A) k : within seq k -> beyond seq k -> False.
Proof. intros (v & Hv & Hle) (v' & Hv' & Hgt). congruence. Qed.

Lemma within_at (seq : list A) i r :
  seq !! Z.to_nat i = Some r -> leb r cutoff = true -> within seq i.
Proof. intros Hr Hle. exists r. auto. Qed.

Lemma beyond_at (seq : list A) i r :
  seq !! Z.to_nat i = Some r -> leb r cutoff = false -> beyond seq i.
Proof. intros Hr Hle. exists r. auto. Qed.

Lemma beyond_lt_len (seq : list A) k : 0 <= k -> beyond seq k -> k < Py.len seq.
Proof.
  intros Hk (v & Hv & _). apply lookup_lt_Some in Hv. unfold Py.len. lia.
Qed.

(** Two runs that are maximal to the left and reach the same index start
    at the same index. *)
Lemma run_start_unique (seq : list A) s s0 e :
  0 <= s -> s <= e -> 0 <= s0 -> s0 <= e ->
  (forall k, s <= k <= e -> within seq k) ->
  (forall k, s0 <= k <= e -> within seq k) ->
  (s = 0 \/ beyond seq (s - 1)) ->
  (s0 = 0 \/ beyond seq (s0 - 1)) ->
  s = s0.
Proof.
  intros Hs Hse Hs0 Hs0e Hw Hw0 Hl Hl0.
  destruct (Z.lt_trichotomy s s0) as [Hlt|[Heq|Hgt]]; [|exact Heq|]; exfalso.
  - destruct Hl0 as [->|Hb]; [lia|].
    apply (within_not_beyond seq (s0 - 1)); [apply Hw; lia|exact Hb].
  - destruct Hl as [->|Hb]; [lia|].
    apply (within_not_beyond seq (s - 1)); [apply Hw0; lia|exact Hb].
Qed.

Lemma run_inv_nil (seq : list A) : run_inv seq 0 ([], None).
Proof.
  split; simpl; [|left; reflexivity].
  intros s e. split.
  - intros H. apply elem_of_nil in H. contradiction.
  - intros (H0 & H1 & H2 & _). lia.
Qed.

Lemma run_step_inv (seq : list A) i st r :
  0 <= i -> seq !! Z.to_nat i = Some r ->
  run_inv seq i st ->
  run_inv seq (i + 1) (scan_step leb cutoff min_len st (i, r)).
Proof.
  destruct st as [intervals start]. intros Hi Hr [Hruns Hstart].
  simpl in Hruns, Hstart. unfold scan_step.
  destruct (leb r cutoff) eqn:Hle.
  - (* within the cutoff *)
    pose proof (within_at seq i r Hr Hle) as Hwi.
    assert (Hsame : forall s e, (s, e) ∈ intervals <->
              0 <= s /\ s <= e /\ e + 1 < i + 1 /\ min_len <= e - s + 1 /\
              (forall k, s <= k <= e -> within seq k) /\
              (s = 0 \/ beyond seq (s - 1)) /\ beyond seq (e + 1)).
    { intros s e. rewrite Hruns. split.
      - intros (H0 & H1 & H2 & H3 & H4 & H5 & H6). repeat split; auto. lia.
      - intros (H0 & H1 & H2 & H3 & H4 & H5 & H6).
        destruct (decide (e + 1 = i)) as [Heq|Hne].
        + exfalso. rewrite Heq in H6. eapply within_not_beyond; eauto.
        + repeat split; auto. lia. }
    destruct start as [s0|]; (split; [exact Hsame|]); simpl.
    + destruct Hstart as (H0 & Hw & Hl). repeat split; try lia; auto.
      intros k Hk. destruct (decide (k = i)) as [->|Hne]; [exact Hwi|].
      apply Hw. lia.
    + repeat split; try lia.
      * intros k Hk. assert (k = i) as -> by lia. exact Hwi.
      * destruct Hstart as [->|Hb]; [left; reflexivity|right; exact Hb].
  - (* beyond the cutoff *)
    pose proof (beyond_at seq i r Hr Hle) as Hbi.
    destruct start as [s0|]; simpl.
    + destruct Hstart as (H0 & Hw & Hl).
      assert (Hend : forall s e,
                0 <= s -> s <= e -> e + 1 = i ->
                (forall k, s <= k <= e -> within seq k) ->
                (s = 0 \/ beyond seq (s - 1)) -> s = s0).
      { intros s e Hs Hse He Hws Hls.
        apply (run_start_unique seq s s0 e); auto; try lia.
        intros k Hk. apply Hw. lia. }
      split; [|simpl; right; replace (i + 1 - 1) with i by lia; exact Hbi].
      intros s e. unfold close_run.
      destruct (min_len <=? i - 1 - s0 + 1) eqn:Hm.
      * apply Z.leb_le in Hm. simpl.
        rewrite elem_of_app, list_elem_of_singleton, Hruns. split.
        -- intros [(G0 & G1 & G2 & G3 & G4 & G5 & G6)|[= -> ->]].
           ++ repeat split; auto. lia.
           ++ repeat split; try lia; auto.
              ** intros k Hk. apply Hw. lia.
              ** replace (i - 1 + 1) with i by lia. exact Hbi.
        -- intros (G0 & G1 & G2 & G3 & G4 & G5 & G6).
           destruct (decide (e + 1 = i)) as [Heq|Hne].
           ++ right. assert (s = s0) as -> by (eapply Hend; eauto).
              f_equal. lia.
           ++ left. repeat split; auto. lia.
      * apply Z.leb_gt in Hm. simpl. rewrite Hruns. split.
        -- intros (G0 & G1 & G2 & G3 & G4 & G5 & G6). repeat split; auto. lia.
        -- intros (G0 & G1 & G2 & G3 & G4 & G5 & G6).
           destruct (decide (e + 1 = i)) as [Heq|Hne].
           ++ exfalso. assert (s = s0) as -> by (eapply Hend; eauto). lia.
           ++ repeat split; auto. lia.
    + split; [|simpl; right; replace (i + 1 - 1) with i by lia; exact Hbi].
      intros s e. simpl. rewrite Hruns. split.
      * intros (G0 & G1 & G2 & G3 & G4 & G5 & G6). repeat split; auto. lia.
      * intros (G0 & G1 & G2 & G3 & G4 & G5 & G6).
        destruct (decide (e + 1 = i)) as [Heq|Hne].
        -- exfalso. destruct Hstart as [->|Hb]; [lia|].
           apply (within_not_beyond seq (i - 1)); [apply G4; lia|exact Hb].
        -- repeat split; auto. lia.
Qed.

Lemma run_fold_inv (seq : list A) suf : forall pre st,
  seq = pre ++ suf ->
  run_inv seq (Py.len pre) st ->
  run_inv seq (Py.len seq)
    (fold_left (scan_step leb cutoff min_len)
       (Py.enumerate_from (Py.len pre) suf) st).
Proof.
  induction suf as [|r suf IH]; intros pre st Hseq Hinv; simpl.
  - rewrite app_nil_r in Hseq. subst seq. exact Hinv.
  - rewrite <- (len_snoc pre r). apply IH.
    + rewrite Hseq, <- app_assoc. reflexivity.
    + rewrite len_snoc. apply run_step_inv; [unfold Py.len; lia| |exact Hinv].
      rewrite Hseq. unfold Py.len. rewrite Nat2Z.id.
      rewrite lookup_app_r, Nat.sub_diag by lia. reflexivity.
Qed.

End RunFacts.

Lemma maximal_runs_iff {A : Type} (leb : A -> A -> bool)
  (seq : list A) (cutoff : A) (min_len_frames : Z) (s e : Z) :
  (s, e) ∈ find_intervals leb seq cutoff min_len_frames <->
  maximal_run leb cutoff seq (s, e) /\ min_len_frames <= e - s + 1.
Proof.
  unfold find_intervals, Py.enumerate.
  pose proof (run_fold_inv leb cutoff min_len_frames seq seq [] ([], None)
                eq_refl (run_inv_nil leb cutoff min_len_frames seq)) as Hinv.
  simpl in Hinv.
  destruct (fold_left _ _ _) as [intervals start].
  destruct Hinv as [Hruns Hstart]. simpl in Hruns, Hstart.
  unfold maximal_run. simpl.
  assert (Hclosed : (s, e) ∈ intervals <->
            (0 <= s /\ s <= e /\ e < Py.len seq /\
             (forall k, s <= k <= e -> within leb cutoff seq k) /\
             (s = 0 \/ beyond leb cutoff seq (s - 1)) /\
             beyond leb cutoff seq (e + 1)) /\
            min_len_frames <= e - s + 1).
  { rewrite Hruns. split.
    - intros (G0 & G1 & G2 & G3 & G4 & G5 & G6). repeat split; auto. lia.
    - intros ((G0 & G1 & G2 & G4 & G5 & G6) & G3). repeat split; auto.
      apply beyond_lt_len in G6; lia. }
  destruct start as [s0|].
  - destruct Hstart as (H0 & Hw & Hl). unfold close_run.
    assert (Hlast : 0 <= s -> s <= e -> e = Py.len seq - 1 ->
              (forall k, s <= k <= e -> within leb cutoff seq k) ->
              (s = 0 \/ beyond leb cutoff seq (s - 1)) -> s = s0).
    { intros Hs Hse He Hws Hls.
      apply (run_start_unique leb cutoff seq s s0 e); auto; try lia.
      intros k Hk. apply Hw. lia. }
    destruct (min_len_frames <=? Py.len seq - 1 - s0 + 1) eqn:Hm.
    + apply Z.leb_le in Hm.
      rewrite elem_of_app, list_elem_of_singleton, Hclosed. split.
      * intros [((G0 & G1 & G2 & G4 & G5 & G6) & G3)|[= -> ->]].
        -- repeat split; auto.
        -- repeat split; try lia; auto. intros k Hk. apply Hw. lia.
      * intros ((G0 & G1 & G2 & G4 & G5 & [G6|G6]) & G3).
        -- right. assert (s = s0) as -> by (apply Hlast; auto). f_equal. exact G6.
        -- left. repeat split; auto.
    + apply Z.leb_gt in Hm. rewrite Hclosed. split.
      * intros ((G0 & G1 & G2 & G4 & G5 & G6) & G3). repeat split; auto.
      * intros ((G0 & G1 & G2 & G4 & G5 & [G6|G6]) & G3).
        -- exfalso. assert (s = s0) as -> by (apply Hlast; auto). lia.
        -- repeat split; auto.
  - rewrite Hclosed. split.
    + intros ((G0 & G1 & G2 & G4 & G5 & G6) & G3). repeat split; auto.
    + intros ((G0 & G1 & G2 & G4 & G5 & [G6|G6]) & G3).
      * exfalso. destruct Hstart as [Hz|Hb]; [lia|].
        apply (within_not_beyond leb cutoff seq (Py.len seq - 1));
          [apply G4; lia|exact Hb].
      * repeat split; auto.
Qed.

(** X1.  The intervals returned by [find_intervals] are exactly the
    maximal runs of values within the cutoff that have at least
    [min_len_frames] frames: no such run is left out, and nothing else is
    returned. *)
Theorem find_intervals_maximal_runs {A : Type} (leb : A -> A -> bool)
  (seq : list A) (cutoff : A) (min_len_frames : Z) (s e : Z) :
  (s, e) ∈ find_intervals leb seq cutoff min_len_frames <->
  maximal_run leb cutoff seq (s, e) /\ min_len_frames <= e - s + 1.
Proof.
  split.
  - intros Hin. apply maximal_runs_iff. exact Hin.
  - intros Hrun. apply maximal_runs_iff. exact Hrun.
Qed.

Section MinLength.

Context {A : Type} (leb : A -> A -> bool) (cutoff : A).

Lemma close_run_filter m0 m intervals s e :
  m0 <= m ->
  close_run m (List.filter (long_enough m) intervals) s e
  = List.filter (long_enough m) (close_run m0 intervals s e).
Proof.
  intros Hle. unfold close_run.
  destruct (m0 <=? e - s + 1) eqn:H0.
  - rewrite List.filter_app. simpl.
    change (long_enough m (s, e)) with (m <=? e - s + 1).
    destruct (m <=? e - s + 1); [reflexivity|]. rewrite app_nil_r. reflexivity.
  - apply Z.leb_gt in H0.
    replace (m <=? e - s + 1) with false by (symmetry; apply Z.leb_gt; lia).
    reflexivity.
Qed.

(** The scan with the larger minimum keeps the long intervals of the scan
    with the smaller one, and the same open run. *)
Lemma scan_fold_filter m0 m l : forall i intervals start,
  m0 <= m ->
  fold_left (scan_step leb cutoff m) (Py.enumerate_from i l)
    (List.filter (long_enough m) intervals, start)
  = let st := fold_left (scan_step leb cutoff m0) (Py.enumerate_from i l)
                (intervals, start) in
    (List.filter (long_enough m) st.1, st.2).
Proof.
  induction l as [|r l IH]; intros i intervals start Hle; simpl; [reflexivity|].
  destruct (leb r cutoff).
  - destruct start; apply IH; exact Hle.
  - destruct start as [s|]; [|apply IH; exact Hle].
    rewrite (close_run_filter m0 m) by exact Hle. apply IH. exact Hle.
Qed.

End MinLength.

(** X2.  The minimum length only filters: the intervals found with a
    minimum length are those found with any smaller minimum, in the same
    order, that have at least that many frames. *)
Theorem find_intervals_min_len_filter {A : Type} (leb : A -> A -> bool)
  (seq : list A) (cutoff : A) (m0 m : Z) :
  m0 <= m ->
  find_intervals leb seq cutoff m
  = List.filter (long_enough m) (find_intervals leb seq cutoff m0).
Proof.
  intros Hle. unfold find_intervals, Py.enumerate.
  pose proof (scan_fold_filter leb cutoff m0 m seq 0 [] None Hle) as H.
  simpl in H. rewrite H.
  destruct (fold_left (scan_step leb cutoff m0) _ _) as [intervals start].
  simpl. destruct start as [s|]; [|reflexivity].
  apply close_run_filter. exact Hle.
Qed.

Lemma find_intervals_min_len_filter_witness :
  1 <= 2 /\
  find_intervals Z.leb [1; 3; 1; 1; 5; 1] 2 2
  = List.filter (long_enough 2) (find_intervals Z.leb [1; 3; 1; 1; 5; 1] 2 1).
Proof.
  assert (H : 1 <= 2) by lia.
  split; [exact H|].
  exact (find_intervals_min_len_filter Z.leb [1; 3; 1; 1; 5; 1] 2 1 2 H).
Defined.

Section Uniform.

Context {A : Type} (leb : A -> A -> bool) (cutoff : A) (min_len : Z).

(** Values beyond the cutoff open no run. *)
Lemma scan_fold_beyond l : forall i intervals,
  Forall (fun v => leb v cutoff = false) l ->
  fold_left (scan_step leb cutoff min_len) (Py.enumerate_from i l)
    (intervals, None) = (intervals, None).
Proof.
  induction l as [|r l IH]; intros i intervals Hall; [reflexivity|].
  apply Forall_cons in Hall as [Hr Hall]. simpl. rewrite Hr.
  apply IH. exact Hall.
Qed.

End Uniform.

(** X3.  The two uniform sequences: if every value is within the cutoff,
    the result is the one interval of the whole sequence, provided the
    sequence is not empty and has at least [min_len_frames] values, and
    nothing otherwise; if no value is within the cutoff, the result is
    empty. *)
Theorem find_intervals_uniform {A : Type} (leb : A -> A -> bool)
  (seq : list A) (cutoff : A) (min_len_frames : Z) :
  (Forall (fun r => leb r cutoff = true) seq ->
   find_intervals leb seq cutoff min_len_frames
   = if (1 <=? Py.len seq) && (min_len_frames <=? Py.len seq)
     then [(0, Py.len seq - 1)] else []) /\
  (Forall (fun r => leb r cutoff = false) seq ->
   find_intervals leb seq cutoff min_len_frames = []).
Proof.
  split; intros Hall.
  - destruct seq as [|r seq]; [reflexivity|].
    replace (1 <=? Py.len (r :: seq)) with true
      by (symmetry; apply Z.leb_le; unfold Py.len; simpl; lia).
    simpl. destruct (min_len_frames <=? Py.len (r :: seq)) eqn:Hm.
    + apply Z.leb_le in Hm.
      apply find_intervals_all_within; [discriminate|exact Hall|exact Hm].
    + unfold find_intervals, Py.enumerate.
      rewrite scan_fold_within by exact Hall. unfold close_run.
      replace (Py.len (r :: seq) - 1 - 0 + 1) with (Py.len (r :: seq)) by lia.
      rewrite Hm. reflexivity.
  - unfold find_intervals, Py.enumerate.
    rewrite scan_fold_beyond by exact Hall. reflexivity.
Qed.

Section Concat.

Context {A : Type} (leb : A -> A -> bool) (cutoff : A) (min_len : Z).

Lemma enumerate_from_app (l1 l2 : list A) : forall i,
  Py.enumerate_from i (l1 ++ l2)
  = Py.enumerate_from i l1 ++ Py.enumerate_from (i + Py.len l1) l2.
Proof.
  induction l1 as [|x l1 IH]; intros i; simpl.
  - unfold Py.len. simpl. rewrite Z.add_0_r. reflexivity.
  - rewrite IH. do 3 f_equal. unfold Py.len. simpl. lia.
Qed.

Lemma close_run_shift k acc intervals s e :
  close_run min_len (acc ++ map (shift_interval k) intervals) (s + k) (e + k)
  = acc ++ map (shift_interval k) (close_run min_len intervals s e).
Proof.
  unfold close_run.
  replace (e + k - (s + k) + 1) with (e - s + 1) by lia.
  destruct (min_len <=? e - s + 1); [|reflexivity].
  rewrite map_app, app_assoc. reflexivity.
Qed.

(** Scanning a sequence from index [i + k] behind the intervals [acc] is
    scanning it from index [i], moved by [k] frames. *)
Lemma scan_fold_shift k acc l : forall i intervals start,
  fold_left (scan_step leb cutoff min_len) (Py.enumerate_from (i + k) l)
    (acc ++ map (shift_interval k) intervals, Z.add k <$> start)
  = let st := fold_left (scan_step leb cutoff min_len) (Py.enumerate_from i l)
                (intervals, start) in
    (acc ++ map (shift_interval k) st.1, Z.add k <$> st.2).
Proof.
  induction l as [|r l IH]; intros i intervals start; simpl; [reflexivity|].
  replace (i + k + 1) with (i + 1 + k) by lia.
  destruct (leb r cutoff).
  - destruct start as [s|]; simpl.
    + apply (IH (i + 1) intervals (Some s)).
    + replace (i + k) with (k + i) by lia. apply (IH (i + 1) intervals (Some i)).
  - destruct start as [s|]; simpl.
    + replace (k + s) with (s + k) by lia.
      replace (i + k - 1) with (i - 1 + k) by lia.
      rewrite close_run_shift. apply (IH (i + 1) _ None).
    + apply (IH (i + 1) intervals None).
Qed.

End Concat.

(** X4.  A value beyond the cutoff separates the sequence: the intervals
    of [l1 ++ r :: l2] are those of [l1] followed by those of [l2] moved
    behind [r]. *)
Theorem find_intervals_split {A : Type} (leb : A -> A -> bool)
  (l1 l2 : list A) (r cutoff : A) (min_len_frames : Z) :
  leb r cutoff = false ->
  find_intervals leb (l1 ++ r :: l2) cutoff min_len_frames
  = find_intervals leb l1 cutoff min_len_frames
    ++ map (shift_interval (Py.len l1 + 1))
         (find_intervals leb l2 cutoff min_len_frames).
Proof.
  intros Hr. unfold find_intervals, Py.enumerate.
  rewrite enumerate_from_app, fold_left_app. simpl.
  destruct (fold_left _ (Py.enumerate_from 0 l1) _) as [i1 start1].
  set (f1 := match start1 with
             | Some s => close_run min_len_frames i1 s (Py.len l1 - 1)
             | None => i1
             end).
  assert (Hstep : scan_step leb cutoff min_len_frames (i1, start1)
                    (0 + Py.len l1, r) = (f1, None)).
  { unfold scan_step, f1. rewrite Hr. destruct start1; [|reflexivity].
    replace (0 + Py.len l1 - 1) with (Py.len l1 - 1) by lia. reflexivity. }
  rewrite Hstep. clear Hstep.
  pose proof (scan_fold_shift leb cutoff min_len_frames (Py.len l1 + 1) f1 l2
                0 [] None) as Hshift.
  simpl in Hshift. rewrite app_nil_r in Hshift.
  replace (0 + Py.len l1 + 1) with (0 + (Py.len l1 + 1)) by lia.
  rewrite Hshift. clear Hshift.
  destruct (fold_left _ (Py.enumerate_from 0 l2) _) as [i2 start2]. simpl.
  destruct start2 as [s2|]; simpl; [|reflexivity].
  replace (Py.len l1 + 1 + s2) with (s2 + (Py.len l1 + 1)) by lia.
  replace (Py.len (l1 ++ r :: l2) - 1) with (Py.len l2 - 1 + (Py.len l1 + 1))
    by (unfold Py.len; rewrite length_app; simpl; lia).
  apply close_run_shift.
Qed.

Lemma find_intervals_split_witness :
  (5 <=? 2) = false /\
  find_intervals Z.leb ([1; 3; 1; 1] ++ 5 :: [1; 2; 7; 0]) 2 2
  = find_intervals Z.leb [1; 3; 1; 1] 2 2
    ++ map (shift_interval (Py.len [1; 3; 1; 1] + 1))
         (find_intervals Z.leb [1; 2; 7; 0] 2 2).
Proof.
  assert (H : (5 <=? 2) = false) by reflexivity.
  split; [exact H|].
  exact (find_intervals_split Z.leb [1; 3; 1; 1] [1; 2; 7; 0] 5 2 2 H).
Defined.

(* ================================================================== *)
(** * More on the signal reader *)

(** A line appends to the two lists what it gives on its own. *)
Lemma ne_line_append `{rt : Runtime} times nes line :
  ne_line (times, nes) line
  = (times ++ (ne_line ([], []) line).1, nes ++ (ne_line ([], []) line).2).
Proof.
  unfold ne_line. destruct (negb _); simpl; [rewrite !app_nil_r; reflexivity|].
  destruct (omap _ _) as [|t [|ne more]]; simpl; rewrite ?app_nil_r; reflexivity.
Qed.

Lemma fold_ne_line_append `{rt : Runtime} f : forall times nes,
  fold_left ne_line f (times, nes)
  = (times ++ (ne_lines f).1, nes ++ (ne_lines f).2).
Proof.
  unfold ne_lines.
  induction f as [|line f IH]; intros times nes; cbn [fold_left].
  - simpl. rewrite !app_nil_r. reflexivity.
  - rewrite (ne_line_append times nes line), IH.
    destruct (ne_line ([], []) line) as [t1 n1] eqn:Hline.
    rewrite (IH t1 n1). cbn [fst snd].
    rewrite <- !app_assoc. reflexivity.
Qed.

(** X5.  Reading a log is additive in its lines: the series of a file made
    of two parts are the series of the first part followed by those of
    the second. *)
Theorem ne_lines_app `{rt : Runtime} (f1 f2 : list string) :
  ne_lines (f1 ++ f2)
  = ((ne_lines f1).1 ++ (ne_lines f2).1, (ne_lines f1).2 ++ (ne_lines f2).2).
Proof.
  unfold ne_lines at 1. rewrite fold_left_app.
  fold (ne_lines f1). destruct (ne_lines f1) as [times nes].
  apply fold_ne_line_append.
Qed.

Lemma ne_line_count `{rt : Runtime} line :
  (length (ne_line ([], []) line).1
   <= if Py.contains "INFOLINE" line then 1 else 0)%nat.
Proof.
  unfold ne_line. destruct (Py.contains "INFOLINE" line); simpl; [|lia].
  destruct (omap _ _) as [|t [|ne more]]; simpl; lia.
Qed.

Lemma ne_lines_count_le `{rt : Runtime} (f : list string) :
  (length (ne_lines f).1
   <= length (List.filter (Py.contains "INFOLINE") f))%nat.
Proof.
  induction f as [|line f IH]; [simpl; lia|].
  pose proof (ne_line_count line) as Hone.
  unfold ne_lines at 1. cbn [fold_left].
  destruct (ne_line ([], []) line) as [t1 n1].
  rewrite fold_ne_line_append. cbn [fst] in *. rewrite length_app.
  cbn [List.filter].
  destruct (Py.contains "INFOLINE" line); cbn [length]; lia.
Qed.

(** X6.  A line gives at most one sample, and only if it contains the
    marker: the series are never longer than the number of marker lines of
    the file, and a file without marker lines gives empty series. *)
Theorem ne_lines_count `{rt : Runtime} (f : list string) :
  (length (ne_lines f).1
   <= length (List.filter (Py.contains "INFOLINE") f))%nat /\
  length (ne_lines f).2 = length (ne_lines f).1 /\
  (Forall (fun line => Py.contains "INFOLINE" line = false) f ->
   ne_lines f = ([], [])).
Proof.
  assert (Hlen : length (ne_lines f).1 = length (ne_lines f).2)
    by (apply fold_ne_line_length; reflexivity).
  pose proof (ne_lines_count_le f) as Hcount.
  split; [exact Hcount|]. split; [symmetry; exact Hlen|].
  intros Hnone.
  assert (Hfilter : List.filter (Py.contains "INFOLINE") f = []).
  { clear Hlen Hcount. induction Hnone as [|line f Hline _ IH]; simpl; [reflexivity|].
    rewrite Hline. exact IH. }
  rewrite Hfilter in Hcount. simpl in Hcount.
  destruct (ne_lines f) as [[|t times] [|ne nes]]; simpl in *;
    try reflexivity; try lia; discriminate.
Qed.

(* ================================================================== *)
(** * More on the frame reader *)






(** The tokens of [split] on ASCII text are not empty. *)
Lemma split_chars_nonempty l : forall cur tok,
  tok ∈ Py.split_chars cur l -> tok <> ""%string.
Proof.
  assert (Hrun : forall cur : list ascii, cur <> [] -> Py.str (rev cur) <> ""%string).
  { intros cur Hcur Hstr. apply Hcur.
    assert (Hlen : length (rev cur) = 0%nat).
    { rewrite <- (list_ascii_of_string_of_list_ascii (rev cur)).
      unfold Py.str in Hstr. rewrite Hstr. reflexivity. }
    rewrite length_rev in Hlen. destruct cur; [reflexivity|discriminate]. }
  induction l as [|c l IH]; intros cur tok Hin; simpl in Hin.
  - destruct cur as [|c0 cur]; [apply elem_of_nil in Hin; contradiction|].
    apply list_elem_of_singleton in Hin. subst. apply Hrun. discriminate.
  - destruct (Py.isspace c).
    + destruct cur as [|c0 cur]; [eapply IH; exact Hin|].
      apply elem_of_cons in Hin as [->|Hin]; [apply Hrun; discriminate|].
      eapply IH; exact Hin.
    + eapply IH; exact Hin.
Qed.






(* ================================================================== *)
(** * More on the report *)

Lemma traverse_enrich dt n raw :
  Forall (fun se : Z * Z => 0 <= se.1 < n /\ 0 <= se.2 < n) raw ->
  traverse (enrich (map (frame_time dt) (Py.range n))) raw
  = Ok (map (with_times dt) raw).
Proof.
  induction 1 as [|[s e] raw [Hs He] _ IH]; [reflexivity|].
  simpl in Hs, He. cbn [traverse]. unfold enrich at 1.
  rewrite !getitem_map_range_Ok by lia. simpl. rewrite IH. reflexivity.
Qed.

(** The entry of a pair is the segmentation of its distance series with
    the times attached. *)
Lemma pair_entry_map `{rt : Runtime} frames dt r_cut min_len_frames ci hi v :
  pair_entry frames (map (frame_time dt) (Py.range (Py.len frames)))
    r_cut min_len_frames ci hi v ->
  exists seq, distance_series frames ci hi = Ok seq /\
    length seq = length frames /\
    find_intervals PrimFloat.leb seq r_cut min_len_frames <> [] /\
    v = map (with_times dt) (find_intervals PrimFloat.leb seq r_cut min_len_frames).
Proof.
  intros (seq & Hseq & Hne & Hv). exists seq.
  pose proof (traverse_Ok_length _ _ _ Hseq) as Hlen.
  repeat split; auto.
  rewrite traverse_enrich in Hv; [congruence|].
  apply Forall_forall. intros [s e] Hse.
  apply find_intervals_run_of in Hse as (Hs & Hle & He & _). simpl in *.
  unfold Py.len in *. lia.
Qed.

Lemma labelled_C_not_H f0 i : labelled "C" f0 i -> labelled "H" f0 i -> False.
Proof.
  intros (_ & el & xyz & Hl & Hel) (_ & el' & xyz' & Hl' & Hel').
  assert (el' = el) as -> by congruence. congruence.
Qed.

(** What a returned report holds for a key. *)
Lemma report_lookup `{rt : Runtime} fs traj_path monitor_path r_cut min_len_frames
  ne_threshold traj_dt_fs frames rep ci hi v :
  frames_from_xyz fs traj_path = Ok frames ->
  ch_intervals_for_traj fs traj_path monitor_path
    r_cut min_len_frames ne_threshold traj_dt_fs = Ok rep ->
  pair_intervals rep !! (ci, hi) = Some v ->
  exists f0, frames !! 0%nat = Some f0 /\
    labelled "C" f0 ci /\ labelled "H" f0 hi /\
    pair_entry frames (map (frame_time traj_dt_fs) (Py.range (Py.len frames)))
      r_cut min_len_frames ci hi v.
Proof.
  intros Hframes Hrun Hv.
  destruct frames as [|f0 frames'].
  { unfold ch_intervals_for_traj in Hrun. rewrite Hframes in Hrun.
    injection Hrun as <-. simpl in Hv. rewrite lookup_empty in Hv. discriminate. }
  exists f0. split; [reflexivity|].
  destruct (report_of_frames _ _ _ _ _ _ _ _ f0 _ Hframes eq_refl Hrun)
    as (_ & _ & Hentries & _).
  destruct (Hentries ci hi v Hv) as [Hempty|[[Hc Hh] He]].
  - rewrite lookup_empty in Hempty. discriminate.
  - auto.
Qed.

(** X9.  In a returned report the list of a pair is the segmentation of
    the distance series of the pair, in its order, each interval with the
    times of its first and last frame (frame index times the time step)
    and their difference; and the two atoms of a pair differ. *)
Theorem report_entry_segmentation `{rt : Runtime} (fs : gmap string node) (traj_path : string)
  (monitor_path : option string) (r_cut : float) (min_len_frames : Z)
  (ne_threshold traj_dt_fs : float) (frames : list frame) (rep : report)
  (ci hi : Z) (v : list enriched_interval) :
  frames_from_xyz fs traj_path = Ok frames ->
  ch_intervals_for_traj fs traj_path monitor_path
    r_cut min_len_frames ne_threshold traj_dt_fs = Ok rep ->
  pair_intervals rep !! (ci, hi) = Some v ->
  ci <> hi /\
  exists seq, distance_series frames ci hi = Ok seq /\
    length seq = length frames /\
    v = map (with_times traj_dt_fs)
          (find_intervals PrimFloat.leb seq r_cut min_len_frames).
Proof.
  intros Hframes Hrun Hv.
  destruct (report_lookup _ _ _ _ _ _ _ _ _ _ _ _ Hframes Hrun Hv)
    as (f0 & Hf0 & Hc & Hh & He).
  split.
  - intros ->. eapply labelled_C_not_H; eauto.
  - apply pair_entry_map in He as (seq & Hseq & Hlen & _ & ->). eauto.
Qed.

Lemma report_entry_segmentation_witness :
  let rep :=
    Report {[ (0, 1) := [(0, 1, 0.0%float, 0.5%float, 0.5%float);
          (3, 4, 1.5%float, 2.0%float, 0.5%float)] ]}
      (Some 200%float) 5 in
  frames_from_xyz example_fs "td1/trajectory.xyz" = Ok example_frames /\
  ch_intervals_for_traj example_fs "td1/trajectory.xyz"
    (Some "td1/monitor.out"%string) R_CUTOFF MIN_LEN_FRAMES NE_THRESHOLD TRAJ_DT_FS
  = Ok rep /\
  pair_intervals rep !! (0, 1)
  = Some [(0, 1, 0.0%float, 0.5%float, 0.5%float);
          (3, 4, 1.5%float, 2.0%float, 0.5%float)] /\
  0 <> 1 /\
  exists seq, distance_series example_frames 0 1 = Ok seq /\
    length seq = length example_frames /\
    [(0, 1, 0.0%float, 0.5%float, 0.5%float);
          (3, 4, 1.5%float, 2.0%float, 0.5%float)]
    = map (with_times TRAJ_DT_FS)
          (find_intervals PrimFloat.leb seq R_CUTOFF MIN_LEN_FRAMES).
Proof.
  intros rep.
  assert (Hframes : frames_from_xyz example_fs "td1/trajectory.xyz"
                    = Ok example_frames) by (vm_compute; reflexivity).
  assert (Hrun : ch_intervals_for_traj example_fs "td1/trajectory.xyz"
                   (Some "td1/monitor.out"%string)
                   R_CUTOFF MIN_LEN_FRAMES NE_THRESHOLD TRAJ_DT_FS = Ok rep)
    by (vm_compute; reflexivity).
  assert (Hv : pair_intervals rep !! (0, 1)
               = Some [(0, 1, 0.0%float, 0.5%float, 0.5%float);
          (3, 4, 1.5%float, 2.0%float, 0.5%float)])
    by (vm_compute; reflexivity).
  split; [exact Hframes|]. split; [exact Hrun|]. split; [exact Hv|].
  exact (report_entry_segmentation example_fs "td1/trajectory.xyz"
           (Some "td1/monitor.out"%string)
           R_CUTOFF MIN_LEN_FRAMES NE_THRESHOLD TRAJ_DT_FS
           example_frames rep 0 1 _ Hframes Hrun Hv).
Defined.

(** X10.  A returned report lists for a pair exactly the contact
    episodes of at least [min_len_frames] frames: [(s, e, ...)] is in the
    list if and only if [[s, e]] is a maximal run of frames in which the
    distance of the pair is within [r_cut], and the times are those of the
    frames [s] and [e].  No episode is missed and none is invented. *)
Theorem report_episodes `{rt : Runtime} (fs : gmap string node) (traj_path : string)
  (monitor_path : option string) (r_cut : float) (min_len_frames : Z)
  (ne_threshold traj_dt_fs : float) (frames : list frame) (rep : report)
  (ci hi : Z) (v : list enriched_interval) :
  frames_from_xyz fs traj_path = Ok frames ->
  ch_intervals_for_traj fs traj_path monitor_path
    r_cut min_len_frames ne_threshold traj_dt_fs = Ok rep ->
  pair_intervals rep !! (ci, hi) = Some v ->
  exists seq, distance_series frames ci hi = Ok seq /\
    forall s e t_start t_end duration,
      (s, e, t_start, t_end, duration) ∈ v <->
      maximal_run PrimFloat.leb r_cut seq (s, e) /\
      min_len_frames <= e - s + 1 /\
      t_start = frame_time traj_dt_fs s /\
      t_end = frame_time traj_dt_fs e /\
      duration = (t_end - t_start)%float.
Proof.
  intros Hframes Hrun Hv.
  destruct (report_lookup _ _ _ _ _ _ _ _ _ _ _ _ Hframes Hrun Hv)
    as (f0 & Hf0 & Hc & Hh & He).
  apply pair_entry_map in He as (seq & Hseq & Hlen & _ & ->).
  exists seq. split; [exact Hseq|].
  intros s e t_start t_end duration.
  rewrite list_elem_of_In, in_map_iff. split.
  - intros ([s' e'] & [= <- <- <- <- <-] & Hin).
    apply list_elem_of_In, maximal_runs_iff in Hin as [Hmax Hm]. auto.
  - intros (Hmax & Hm & -> & -> & ->). exists (s, e). split; [reflexivity|].
    apply list_elem_of_In, maximal_runs_iff. auto.
Qed.

Lemma report_episodes_witness :
  let v := [(0, 1, 0.0%float, 0.5%float, 0.5%float);
          (3, 4, 1.5%float, 2.0%float, 0.5%float)] in
  let rep := Report {[ (0, 1) := v ]} (Some 200%float) 5 in
  frames_from_xyz example_fs "td1/trajectory.xyz" = Ok example_frames /\
  ch_intervals_for_traj example_fs "td1/trajectory.xyz"
    (Some "td1/monitor.out"%string) R_CUTOFF MIN_LEN_FRAMES NE_THRESHOLD TRAJ_DT_FS
  = Ok rep /\
  pair_intervals rep !! (0, 1) = Some v /\
  exists seq, distance_series example_frames 0 1 = Ok seq /\
    forall s e t_start t_end duration,
      (s, e, t_start, t_end, duration) ∈ v <->
      maximal_run PrimFloat.leb R_CUTOFF seq (s, e) /\
      MIN_LEN_FRAMES <= e - s + 1 /\
      t_start = frame_time TRAJ_DT_FS s /\
      t_end = frame_time TRAJ_DT_FS e /\
      duration = (t_end - t_start)%float.
Proof.
  intros v rep.
  assert (Hframes : frames_from_xyz example_fs "td1/trajectory.xyz"
                    = Ok example_frames) by (vm_compute; reflexivity).
  assert (Hrun : ch_intervals_for_traj example_fs "td1/trajectory.xyz"
                   (Some "td1/monitor.out"%string)
                   R_CUTOFF MIN_LEN_FRAMES NE_THRESHOLD TRAJ_DT_FS = Ok rep)
    by (vm_compute; reflexivity).
  assert (Hv : pair_intervals rep !! (0, 1) = Some v)
    by (vm_compute; reflexivity).
  split; [exact Hframes|]. split; [exact Hrun|]. split; [exact Hv|].
  exact (report_episodes example_fs "td1/trajectory.xyz"
           (Some "td1/monitor.out"%string)
           R_CUTOFF MIN_LEN_FRAMES NE_THRESHOLD TRAJ_DT_FS
           example_frames rep 0 1 v Hframes Hrun Hv).
Defined.


(** X12.  The frame count of a returned report is the number of frames
    read.  Its ionization time is that of the series of the monitor file,
    taken as it is in the file and independent of the cutoff, the minimum
    length and the time step, if the trajectory has a frame and the
    signal path names a file; in every other case it is [None].  (With a
    broken monitor file and a frame there is no report: the call
    raises.) *)
Theorem report_frames_and_ionization `{rt : Runtime} (fs : gmap string node) (traj_path : string)
  (monitor_path : option string) (r_cut : float) (min_len_frames : Z)
  (ne_threshold traj_dt_fs : float) (rep : report) :
  ch_intervals_for_traj fs traj_path monitor_path
    r_cut min_len_frames ne_threshold traj_dt_fs = Ok rep ->
  exists frames, frames_from_xyz fs traj_path = Ok frames /\
    n_frames rep = Py.len frames /\
    t_ion_fs rep
    = match frames, monitor_path with
      | _ :: _, Some p =>
          match fs !! p with
          | Some (File f) =>
              ionization_time (ne_lines f).1 (ne_lines f).2 ne_threshold
          | _ => None
          end
      | _, _ => None
      end.
Proof.
  intros Hrun.
  destruct (frames_from_xyz fs traj_path) as [frames|e] eqn:Hframes.
  2: { unfold ch_intervals_for_traj in Hrun. rewrite Hframes in Hrun. discriminate. }
  exists frames. split; [reflexivity|].
  destruct frames as [|f0 frames'].
  - unfold ch_intervals_for_traj in Hrun. rewrite Hframes in Hrun.
    injection Hrun as <-. split; reflexivity.
  - destruct (report_of_frames _ _ _ _ _ _ _ _ f0 _ Hframes eq_refl Hrun)
      as (Hn & Hion & _).
    split; [exact Hn|].
    rewrite read_t_ion_cases in Hion.
    destruct monitor_path as [p|]; [|congruence].
    destruct (fs !! p) as [[f|f e|]|] eqn:Hp; congruence.
Qed.

Lemma report_frames_and_ionization_witness :
  let rep :=
    Report {[ (0, 1) := [(0, 1, 0.0%float, 0.5%float, 0.5%float);
          (3, 4, 1.5%float, 2.0%float, 0.5%float)] ]}
      (Some 200%float) 5 in
  ch_intervals_for_traj example_fs "td1/trajectory.xyz"
    (Some "td1/monitor.out"%string) R_CUTOFF MIN_LEN_FRAMES NE_THRESHOLD TRAJ_DT_FS
  = Ok rep /\
  exists frames, frames_from_xyz example_fs "td1/trajectory.xyz" = Ok frames /\
    n_frames rep = Py.len frames /\
    t_ion_fs rep
    = match frames, Some "td1/monitor.out"%string with
      | _ :: _, Some p =>
          match example_fs !! p with
          | Some (File f) =>
              ionization_time (ne_lines f).1 (ne_lines f).2 NE_THRESHOLD
          | _ => None
          end
      | _, _ => None
      end.
Proof.
  intros rep.
  assert (Hrun : ch_intervals_for_traj example_fs "td1/trajectory.xyz"
                   (Some "td1/monitor.out"%string)
                   R_CUTOFF MIN_LEN_FRAMES NE_THRESHOLD TRAJ_DT_FS = Ok rep)
    by (vm_compute; reflexivity).
  split; [exact Hrun|].
  exact (report_frames_and_ionization example_fs "td1/trajectory.xyz"
           (Some "td1/monitor.out"%string)
           R_CUTOFF MIN_LEN_FRAMES NE_THRESHOLD TRAJ_DT_FS rep Hrun).
Defined.

Section Returns.

Context `{rt : Runtime} (frames : list frame) (times_geom_fs : list float)
  (r_cut : float) (min_len_frames : Z).



End Returns.


(* ================================================================== *)
(** * The monitor file that is found *)


(** X15.  The report made with the monitor file that is found: for a
    trajectory with a frame, the ionization time is that of the series of
    [monitor.out] if that is a file, else that of [Monitor.out] if that is
    a file, and [None] if neither is. *)
Theorem report_with_found_monitor `{rt : Runtime} (joinpath : string -> string -> string)
  (fs : gmap string node) (td_dir traj_path : string) (r_cut : float)
  (min_len_frames : Z) (ne_threshold traj_dt_fs : float)
  (frames : list frame) (f0 : frame) (rep : report) :
  frames_from_xyz fs traj_path = Ok frames ->
  frames !! 0%nat = Some f0 ->
  ch_intervals_for_traj fs traj_path (find_monitor_file joinpath fs td_dir)
    r_cut min_len_frames ne_threshold traj_dt_fs = Ok rep ->
  t_ion_fs rep
  = match fs !! joinpath td_dir "monitor.out", fs !! joinpath td_dir "Monitor.out" with
    | Some (File f), _ =>
        ionization_time (ne_lines f).1 (ne_lines f).2 ne_threshold
    | _, Some (File f) =>
        ionization_time (ne_lines f).1 (ne_lines f).2 ne_threshold
    | _, _ => None
    end.
Proof.
  intros Hframes Hf0 Hrun.
  destruct (report_of_frames _ _ _ _ _ _ _ _ _ _ Hframes Hf0 Hrun)
    as (_ & Hion & _).
  rewrite read_t_ion_cases in Hion.
  unfold find_monitor_file in Hion. simpl in Hion. unfold is_file in Hion.
  destruct (fs !! joinpath td_dir "monitor.out") as [[f|f e|]|] eqn:Hl;
    rewrite ?Hl in Hion; try congruence;
    destruct (fs !! joinpath td_dir "Monitor.out") as [[g|g e|]|] eqn:Hu;
    rewrite ?Hu in Hion; congruence.
Qed.

Lemma report_with_found_monitor_witness :
  let fs : gmap string node :=
    {[ "td3/trajectory.xyz"%string :=
         File ["2"; "frame 0"; "C 0.0 0.0 0.0"; "H 1.0 0.0 0.0"]%string;
       "td3/monitor.out"%string := Dir;
       "td3/Monitor.out"%string :=
         File ["INFOLINE: 0 10.0"; "INFOLINE: 7.5 9.0"]%string ]} in
  let f0 : frame := [("C", [0; 0; 0]); ("H", [1; 0; 0])]%float%string in
  let rep := Report {[ (0, 1) := [(0, 0, 0%float, 0%float, 0%float)] ]}
               (Some 7.5%float) 1 in
  frames_from_xyz fs "td3/trajectory.xyz" = Ok [f0] /\
  [f0] !! 0%nat = Some f0 /\
  ch_intervals_for_traj fs "td3/trajectory.xyz" (find_monitor_file slash fs "td3")
    R_CUTOFF MIN_LEN_FRAMES NE_THRESHOLD TRAJ_DT_FS = Ok rep /\
  t_ion_fs rep
  = match fs !! slash "td3" "monitor.out", fs !! slash "td3" "Monitor.out" with
    | Some (File f), _ =>
        ionization_time (ne_lines f).1 (ne_lines f).2 NE_THRESHOLD
    | _, Some (File f) =>
        ionization_time (ne_lines f).1 (ne_lines f).2 NE_THRESHOLD
    | _, _ => None
    end.
Proof.
  intros fs f0 rep.
  assert (Hframes : frames_from_xyz fs "td3/trajectory.xyz" = Ok [f0])
    by (vm_compute; reflexivity).
  assert (Hf0 : [f0] !! 0%nat = Some f0) by reflexivity.
  assert (Hrun : ch_intervals_for_traj fs "td3/trajectory.xyz"
                   (find_monitor_file slash fs "td3")
                   R_CUTOFF MIN_LEN_FRAMES NE_THRESHOLD TRAJ_DT_FS = Ok rep)
    by (vm_compute; reflexivity).
  split; [exact Hframes|]. split; [exact Hf0|]. split; [exact Hrun|].
  exact (report_with_found_monitor slash fs "td3" "td3/trajectory.xyz"
           R_CUTOFF MIN_LEN_FRAMES NE_THRESHOLD TRAJ_DT_FS [f0] f0 rep
           Hframes Hf0 Hrun).
Defined.

(* ================================================================== *)
(** * The exceptions of the geometry *)

(** ** A sum of squares is not below zero *)

Lemma binary_round_aux_sign sx mx ex lx :
  match binary_round_aux prec emax sx mx ex lx with
  | S754_nan => True
  | S754_zero s | S754_infinity s | S754_finite s _ _ => s = sx
  end.
Proof.
  unfold binary_round_aux.
  destruct (shr_fexp prec emax mx ex lx) as [mrs e1].
  destruct (shr_fexp prec emax _ e1 loc_Exact) as [mrs2 e2].
  destruct (shr_m mrs2); [reflexivity| |exact I].
  destruct (e2 <=? emax - prec); reflexivity.
Qed.

Lemma binary_round_aux_nonneg mx ex lx :
  sf_nonneg (binary_round_aux prec emax false mx ex lx).
Proof.
  pose proof (binary_round_aux_sign false mx ex lx) as H.
  destruct (binary_round_aux prec emax false mx ex lx); simpl; auto.
Qed.

Lemma SFmul_self_nonneg f : sf_nonneg (SFmul prec emax f f).
Proof.
  destruct f as [s|s| |s m e]; simpl; auto.
  - destruct s; reflexivity.
  - replace (xorb s s) with false by (destruct s; reflexivity).
    apply binary_round_aux_nonneg.
Qed.

Lemma SFadd_nonneg x y :
  sf_nonneg x -> sf_nonneg y -> sf_nonneg (SFadd prec emax x y).
Proof.
  destruct x as [sx|sx| |sx mx ex], y as [sy|sy| |sy my ey]; simpl;
    intros Hx Hy; subst; simpl; auto.
  - destruct sx, sy; simpl; auto.
  - unfold binary_normalize, binary_round.
    destruct (shl_align mx ex (Z.min ex ey)) as [m1 e1].
    destruct (shl_align my ey (Z.min ex ey)) as [m2 e2]. simpl.
    destruct (shl_align _ _ _) as [mz ez].
    apply binary_round_aux_nonneg.
Qed.

Lemma ltb_zero_nonneg (x : float) :
  sf_nonneg (Prim2SF x) -> (x <? 0)%float = false.
Proof.
  rewrite ltb_spec.
  assert (Hzero : Prim2SF 0 = S754_zero false) by reflexivity.
  rewrite Hzero. unfold SFltb.
  destruct (Prim2SF x) as [s|s| |s m e]; simpl; intros H; subst; reflexivity.
Qed.

Lemma nonneg_of_ltb (x : float) :
  (x <? 0)%float = false -> sf_nonneg (Prim2SF x).
Proof.
  rewrite ltb_spec.
  assert (Hzero : Prim2SF 0 = S754_zero false) by reflexivity.
  rewrite Hzero. unfold SFltb.
  destruct (Prim2SF x) as [s|s| |s m e]; simpl; auto;
    destruct s; intros H; try discriminate; reflexivity.
Qed.

Lemma SFcompare_refl f : f <> S754_nan -> SFcompare f f = Some Eq.
Proof.
  destruct f as [s|s| |s m e]; simpl; intros Hf;
    [reflexivity|destruct s; reflexivity|congruence|].
  destruct s; rewrite Z.compare_refl, Pos.compare_cont_refl; reflexivity.
Qed.

Lemma nan_not_below_zero (x : float) : is_nan x = true -> not_below_zero x.
Proof.
  unfold is_nan, not_below_zero. rewrite FloatAxioms.eqb_spec, ltb_spec.
  unfold SFeqb, SFltb. intros H.
  destruct (Prim2SF x) as [s|s| |s m e] eqn:Hx; try reflexivity;
    (rewrite SFcompare_refl in H; [discriminate|discriminate]).
Qed.

(** The rounded product of a float with itself is not below zero. *)
Lemma square_not_below_zero (x : float) : not_below_zero (x * x).
Proof.
  apply ltb_zero_nonneg. rewrite mul_spec. apply SFmul_self_nonneg.
Qed.

Lemma sum_not_below_zero (a b c : float) :
  not_below_zero a -> not_below_zero b -> not_below_zero c ->
  not_below_zero (a + b + c).
Proof.
  unfold not_below_zero. intros Ha Hb Hc.
  apply nonneg_of_ltb in Ha, Hb, Hc.
  apply ltb_zero_nonneg.
  rewrite !add_spec. unfold SF64add.
  repeat apply SFadd_nonneg; assumption.
Qed.

(** ** The exceptions *)

Lemma getitem_exn {A} (l : list A) i e : Py.getitem l i = Raise e -> e = IndexError.
Proof.
  unfold Py.getitem. destruct (_ <? 0); [congruence|].
  destruct (l !! _); congruence.
Qed.

Lemma check_errno_cases ix err :
  match check_errno ix err with
  | Ok y => y = ix
  | Raise e => e = OverflowError \/ (e = ValueError /\ err = Some EDOM)
  end.
Proof.
  unfold check_errno. destruct err as [[]|];
    repeat match goal with
           | |- context [if ?c then _ else _] => destruct c
           end; auto.
Qed.

Lemma float_pow2_exn `{rt : Runtime} x e :
  float_pow2 x = Raise e ->
  e = OverflowError \/ (e = ValueError /\ ~ libm_pow2_sound).
Proof.
  unfold float_pow2.
  destruct (is_nan x); [discriminate|].
  destruct (is_infinity x); [discriminate|].
  destruct (x =? 0)%float; [discriminate|].
  destruct (abs x =? 1)%float; [discriminate|].
  destruct (libm_pow2 (abs x)) as [ix err] eqn:Hlibm.
  pose proof (check_errno_cases ix err) as Hc.
  intros H. rewrite H in Hc. destruct Hc as [Hc|[Hc Herr]]; [auto|].
  right. split; [exact Hc|]. intros Hsound.
  destruct (Hsound (abs x)) as [_ Hdom]. rewrite Hlibm in Hdom. auto.
Qed.

Lemma float_pow2_exn_sound `{rt : Runtime} x e :
  libm_pow2_sound -> float_pow2 x = Raise e -> e = OverflowError.
Proof.
  intros Hsound H. apply float_pow2_exn in H as [H|[_ H]]; [exact H|].
  contradiction.
Qed.

(** A square is not below zero if those of the C library are not. *)
Lemma float_pow2_not_below_zero `{rt : Runtime} x y :
  libm_pow2_sound -> float_pow2 x = Ok y -> not_below_zero y.
Proof.
  intros Hsound. unfold float_pow2.
  destruct (is_nan x) eqn:Hnan.
  { intros [= <-]. apply nan_not_below_zero, Hnan. }
  destruct (is_infinity x); [intros [= <-]; reflexivity|].
  destruct (x =? 0)%float; [intros [= <-]; reflexivity|].
  destruct (abs x =? 1)%float; [intros [= <-]; reflexivity|].
  destruct (libm_pow2 (abs x)) as [ix err] eqn:Hlibm.
  pose proof (check_errno_cases ix err) as Hc.
  intros H. rewrite H in Hc. subst y.
  destruct (Hsound (abs x)) as [Hpos _]. rewrite Hlibm in Hpos. exact Hpos.
Qed.

(** [dist2] returns a sum of three squares or raises what an index or a
    square raises. *)
Lemma dist2_cases `{rt : Runtime} a b :
  match dist2 a b with
  | Ok d =>
      exists u v w x y z,
        float_pow2 u = Ok x /\ float_pow2 v = Ok y /\ float_pow2 w = Ok z /\
        d = (x + y + z)%float
  | Raise e => e = IndexError \/ exists u, float_pow2 u = Raise e
  end.
Proof.
  unfold dist2.
  repeat match goal with
  | |- context [rbind (Py.getitem ?l ?i) _] =>
      let H := fresh "Hget" in
      destruct (Py.getitem l i) eqn:H; simpl;
        [|left; eapply getitem_exn; exact H]
  | |- context [rbind (float_pow2 ?x) _] =>
      let H := fresh "Hpow" in
      destruct (float_pow2 x) eqn:H; simpl; [|right; eauto]
  end.
  do 6 eexists. eauto.
Qed.

Lemma dist2_exn `{rt : Runtime} a b e :
  libm_pow2_sound -> dist2 a b = Raise e ->
  e = IndexError \/ e = OverflowError.
Proof.
  intros Hsound H. pose proof (dist2_cases a b) as Hd. rewrite H in Hd.
  destruct Hd as [Hd|(u & Hu)]; [auto|].
  right. eapply float_pow2_exn_sound; eauto.
Qed.

Lemma dist2_not_below_zero `{rt : Runtime} a b d :
  libm_pow2_sound -> dist2 a b = Ok d -> not_below_zero d.
Proof.
  intros Hsound H. pose proof (dist2_cases a b) as Hd. rewrite H in Hd.
  destruct Hd as (u & v & w & x & y & z & Hx & Hy & Hz & ->).
  apply sum_not_below_zero; eapply float_pow2_not_below_zero; eauto.
Qed.






(** The C library of the ASCII interpreter is sound on squares. *)
Lemma ascii_libm_pow2_sound : @libm_pow2_sound ascii_runtime.
Proof.
  intros x. split; [apply square_not_below_zero|discriminate].
Qed.

(** X16.  [dist2] needs three coordinates on both sides: with fewer on
    either side it never returns, with three or more on both it never
    raises [IndexError] and looks at the first three only.  With a C
    library that is sound on squares it raises nothing but [IndexError]
    and [OverflowError], and what it returns is not below zero (it may be
    a NaN), so that its square root can be taken. *)
Theorem dist2_spec `{rt : Runtime} (a b : list float) :
  ((length a < 3)%nat \/ (length b < 3)%nat -> forall d, dist2 a b <> Ok d) /\
  ((3 <= length a)%nat -> (3 <= length b)%nat ->
   dist2 a b <> Raise IndexError /\ dist2 a b = dist2 (take 3 a) (take 3 b)) /\
  (libm_pow2_sound ->
   (forall e, dist2 a b = Raise e -> e = IndexError \/ e = OverflowError) /\
   (forall d, dist2 a b = Ok d ->
      not_below_zero d /\ exists r, Py.sqrt d = Ok r)).
Proof.
  split; [|split].
  - intros Hshort d.
    destruct a as [|a0 [|a1 [|a2 a']]], b as [|b0 [|b1 [|b2 b']]];
      simpl in Hshort; try lia;
      unfold dist2, Py.getitem; simpl;
      repeat (destruct (float_pow2 _); simpl); discriminate.
  - intros Ha Hb.
    destruct a as [|a0 [|a1 [|a2 a']]], b as [|b0 [|b1 [|b2 b']]];
      simpl in Ha, Hb; try lia.
    split; [|reflexivity].
    unfold dist2, Py.getitem; simpl.
    assert (Hno : forall u, float_pow2 u <> Raise IndexError).
    { intros u Hu. apply float_pow2_exn in Hu as [Hu|[Hu _]]; discriminate. }
    destruct (float_pow2 (a0 - b0)) eqn:H0; simpl;
      [|intros [= ->]; eapply Hno, H0].
    destruct (float_pow2 (a1 - b1)) eqn:H1; simpl;
      [|intros [= ->]; eapply Hno, H1].
    destruct (float_pow2 (a2 - b2)) eqn:H2; simpl;
      [discriminate|intros [= ->]; eapply Hno, H2].
  - intros Hsound. split.
    + intros e. apply dist2_exn, Hsound.
    + intros d H.
      pose proof (dist2_not_below_zero _ _ _ Hsound H) as Hd.
      split; [exact Hd|].
      unfold Py.sqrt. unfold not_below_zero in Hd. rewrite Hd. eauto.
Qed.

Lemma dist2_spec_witness :
  @libm_pow2_sound ascii_runtime /\
  dist2 [0; 0; 0]%float [1.8; 0; 0]%float = Ok 3.24%float /\
  not_below_zero 3.24%float /\ exists r, Py.sqrt 3.24%float = Ok r.
Proof.
  assert (H : dist2 [0; 0; 0]%float [1.8; 0; 0]%float = Ok 3.24%float)
    by (vm_compute; reflexivity).
  split; [exact ascii_libm_pow2_sound|]. split; [exact H|].
  exact (proj2 (proj2 (proj2 (dist2_spec [0; 0; 0]%float [1.8; 0; 0]%float))
                  ascii_libm_pow2_sound) 3.24%float H).
Defined.



(* ================================================================== *)
(** * More on the ionization time and on whole frames *)

Lemma first_below_Some samples thr t :
  first_below samples thr = Some t ->
  exists (i : nat) ne, samples !! i = Some (t, ne) /\
    (ne <? thr)%float = true /\
    forall (j : nat) t' w, (j < i)%nat -> samples !! j = Some (t', w) ->
      (w <? thr)%float = false.
Proof.
  induction samples as [|[t0 ne0] samples IH]; simpl; [discriminate|].
  destruct (ne0 <? thr)%float eqn:Hne.
  - intros [= <-]. exists 0%nat, ne0. repeat split; auto. intros j t' w Hj. lia.
  - intros H. destruct (IH H) as (i & ne & Hi & Hlt & Hfirst).
    exists (S i), ne. repeat split; auto.
    intros [|j] t' w Hj Hw; simpl in Hw.
    + congruence.
    + eapply Hfirst; [|exact Hw]. lia.
Qed.

(** X18.  An ionization time that is found is a logged time: it is the
    time of a sample whose value is strictly below the threshold, and no
    sample before it has such a value.  Times and values are paired by
    their position. *)
Theorem ionization_time_sound (times nes : list float) (ne_threshold t : float) :
  ionization_time times nes ne_threshold = Some t ->
  exists (i : nat) ne, times !! i = Some t /\ nes !! i = Some ne /\
    (ne <? ne_threshold)%float = true /\
    forall (j : nat) w, (j < i)%nat -> nes !! j = Some w ->
      (w <? ne_threshold)%float = false.
Proof.
  unfold ionization_time. intros H.
  apply first_below_Some in H as (i & ne & Hi & Hlt & Hfirst).
  apply lookup_zip_with_Some in Hi as (t' & ne' & [= <- <-] & Ht & Hne).
  exists i, ne. repeat split; auto.
  intros j w Hj Hw.
  destruct (lookup_lt_is_Some_2 times j) as (tj & Htj).
  { apply lookup_lt_Some in Ht. lia. }
  apply (Hfirst j tj w Hj).
  apply lookup_zip_with_Some. eauto.
Qed.

Lemma ionization_time_sound_witness :
  ionization_time [300; 100; 200]%float [10.0; 9.4; 9.3]%float 9.5%float
  = Some 100%float /\
  exists (i : nat) ne,
    [300; 100; 200]%float !! i = Some 100%float /\
    [10.0; 9.4; 9.3]%float !! i = Some ne /\
    (ne <? 9.5)%float = true /\
    forall (j : nat) w, (j < i)%nat -> [10.0; 9.4; 9.3]%float !! j = Some w ->
      (w <? 9.5)%float = false.
Proof.
  assert (H : ionization_time [300; 100; 200]%float [10.0; 9.4; 9.3]%float
                9.5%float = Some 100%float) by (vm_compute; reflexivity).
  split; [exact H|].
  exact (ionization_time_sound _ _ _ _ H).
Defined.

(** X19.  Trajectory files can be concatenated: if the first file
    consists of whole frames, the frames of the two files written one
    after the other are the frames of the first followed by the frames of
    the second, and reading fails if and only if reading the second
    fails.  The three files are files that can be read to their end. *)
Theorem frames_from_xyz_concat `{rt : Runtime} (fs : gmap string node)
  (f1 f2 f12 : string) (lines1 lines2 : list string) (frames1 : list frame) :
  fs !! f1 = Some (File lines1) ->
  fs !! f2 = Some (File lines2) ->
  fs !! f12 = Some (File (lines1 ++ lines2)) ->
  whole_frames lines1 frames1 ->
  frames_from_xyz fs f1 = Ok frames1 /\
  frames_from_xyz fs f12
  = match frames_from_xyz fs f2 with
    | Ok frames2 => Ok (frames1 ++ frames2)
    | Raise e => Raise e
    end.
Proof.
  intros H1 H2 H12 Hwhole. unfold frames_from_xyz, open.
  rewrite H1, H2, H12. simpl. split.
  - rewrite <- (app_nil_r lines1), (frames_of_lines_whole _ _ _ _ Hwhole).
    simpl. rewrite app_nil_r. reflexivity.
  - rewrite (frames_of_lines_whole _ _ _ _ Hwhole).
    destruct (frames_of_lines None lines2); reflexivity.
Qed.

Lemma frames_from_xyz_concat_witness :
  let lines1 := ["1"; "frame 0"; "C 0.0 0.0 0.0"; ""]%string in
  let lines2 := ["1"; "frame 1"; "H 1.0 0.0 0.0"]%string in
  let fs : gmap string node :=
    {[ "a.xyz"%string := File lines1; "b.xyz"%string := File lines2;
       "ab.xyz"%string := File (lines1 ++ lines2) ]} in
  let frames1 : list frame := [[("C"%string, [0; 0; 0]%float)]] in
  fs !! "a.xyz"%string = Some (File lines1) /\
  fs !! "b.xyz"%string = Some (File lines2) /\
  fs !! "ab.xyz"%string = Some (File (lines1 ++ lines2)) /\
  whole_frames lines1 frames1 /\
  frames_from_xyz fs "a.xyz" = Ok frames1 /\
  frames_from_xyz fs "ab.xyz"
  = match frames_from_xyz fs "b.xyz" with
    | Ok frames2 => Ok (frames1 ++ frames2)
    | Raise e => Raise e
    end.
Proof.
  intros lines1 lines2 fs frames1.
  assert (H1 : fs !! "a.xyz"%string = Some (File lines1)) by (vm_compute; reflexivity).
  assert (H2 : fs !! "b.xyz"%string = Some (File lines2)) by (vm_compute; reflexivity).
  assert (H12 : fs !! "ab.xyz"%string = Some (File (lines1 ++ lines2)))
    by (vm_compute; reflexivity).
  assert (Hwhole : whole_frames lines1 frames1).
  { apply (whole_frame "1" 1 "frame 0" ["C 0.0 0.0 0.0"]%string _ [""%string] []);
      [vm_compute; reflexivity ..|].
    apply whole_skip; [vm_compute; reflexivity|constructor]. }
  split; [exact H1|]. split; [exact H2|]. split; [exact H12|].
  split; [exact Hwhole|].
  exact (frames_from_xyz_concat fs "a.xyz" "b.xyz" "ab.xyz" lines1 lines2 frames1
           H1 H2 H12 Hwhole).
Defined.
